(** * Symbolic execution core and solver factory of the bundled CBMC

    A shallow embedding of

    - [solver_factoryt] (solver_factory.cpp): the selection and construction
      of a decision-procedure bundle from the option table, and
    - [goto_symext] (goto_symex.h, symex_main.cpp): the program-counter
      transition, the verification-condition and assumption handlers, the
      thread switch and the per-instruction dispatcher.

    Code that these functions call but that lives in other translation
    units (the expression library, the guard, the renamer, the per-kind
    handlers) is taken as a parameter, bundled in the class
    [collaborators]; a small reference instance, written from the prose
    description of those parts, is used to run the definitions on concrete
    inputs. *)

From Stdlib Require Import ZArith.
From stdpp Require Import gmap strings list.

Local Open Scope string_scope.
Local Open Scope Z_scope.

(** ** Results of fallible code

    A C++ function here either returns, throws an exception object, or
    aborts on a violated [PRECONDITION]. *)

Inductive exceptiont : Type :=
| invalid_command_line_argument_exceptiont
    (reason option correct_input : string)
| unsupported_operation_exceptiont (message : string).

Inductive result (A : Type) : Type :=
| Ok (a : A)
| Throw (e : exceptiont)
| Abort (condition : string).

Arguments Ok {A} a.
Arguments Throw {A} e.
Arguments Abort {A} condition.

Definition bind {A B : Type} (r : result A) (k : A -> result B) : result B :=
  match r with
  | Ok a => k a
  | Throw e => Throw e
  | Abort c => Abort c
  end.

Notation "x <- r ;; k" := (bind r (fun x => k))
  (at level 100, r at next level, right associativity).
Notation "r ;;; k" := (bind r (fun _ => k))
  (at level 100, right associativity).

Definition is_Ok {A : Type} (r : result A) : bool :=
  match r with Ok _ => true | _ => false end.

(** [unsigned] arithmetic: 32 bits, wrapping. *)
Definition wrap32 (z : Z) : Z := z mod 2 ^ 32.

(** ** The solver factory *)

Module SolverFactory.

(** The option table ([optionst], util/options.h) is used only through its
    accessors; an option table is what these accessors answer. *)
Record optionst : Type := {
  get_bool_option : string -> bool;
  is_set : string -> bool;
  get_option : string -> string;
  get_signed_int_option : string -> Z;
  get_unsigned_int_option : string -> Z
}.

(** Propositional back ends. *)
Inductive propt : Type :=
| satcheckt                 (* SAT solver with the preprocessor (simplifier) *)
| satcheck_no_simplifiert   (* SAT solver without it *)
| dimacs_cnft.              (* CNF dumper *)

Inductive unbounded_arrayt : Type := U_NONE | U_ALL | U_AUTO.

Module smt2_dect.
Inductive solvert : Type :=
| GENERIC | BOOLECTOR | CPROVER_SMT2 | CVC3 | CVC4 | MATHSAT | YICES | Z3.
End smt2_dect.

(** Where an SMT-LIB conversion writes. *)
Inductive smt2_outt : Type :=
| to_cout
| to_ofstream (filename : string).

Record bv_refinement_infot : Type := {
  output_xml : bool;
  max_node_refinement : option Z;   (* [None]: the default is kept *)
  refine_arrays : bool;
  refine_arithmetic : bool
}.

(** Conversion layers. [time_limit] is [Some n] when
    [set_time_limit_seconds n] has been called; [unbounded_array] is [Some u]
    when the field has been assigned. *)
Inductive prop_convt : Type :=
| bv_pointerst (prop : propt) (unbounded_array : option unbounded_arrayt)
    (time_limit : option Z)
| bv_dimacst (prop : propt) (filename : string)
| bv_refinementt (prop : propt) (info : bv_refinement_infot)
    (time_limit : option Z)
| string_refinementt (prop : propt) (info : bv_refinement_infot)
    (refinement_bound : Z) (time_limit : option Z)
| smt2_dect_conv (logic : string) (solver : smt2_dect.solvert)
    (use_FPA_theory : bool) (time_limit : option Z)
| smt2_convt (logic : string) (solver : smt2_dect.solvert) (out : smt2_outt)
    (use_FPA_theory : bool) (time_limit : option Z).

(** [solver_factoryt::solvert]: the three owning pointers. *)
Record solvert : Type := {
  prop_ptr : option propt;
  ofstream_ptr : option string;
  prop_conv_ptr : option prop_convt
}.

(** The three constructors of [solvert]. *)
Definition solvert1 (p : prop_convt) : solvert :=
  {| prop_ptr := None; ofstream_ptr := None; prop_conv_ptr := Some p |}.
Definition solvert_prop (p1 : prop_convt) (p2 : propt) : solvert :=
  {| prop_ptr := Some p2; ofstream_ptr := None; prop_conv_ptr := Some p1 |}.
Definition solvert_ofstream (p1 : prop_convt) (p2 : string) : solvert :=
  {| prop_ptr := None; ofstream_ptr := Some p2; prop_conv_ptr := Some p1 |}.

Record solver_factoryt : Type := {
  options : optionst;
  output_xml_in_refinement : bool
}.

Section Factory.

(** Whether [std::ofstream(filename)] opens, and the constant
    [DEFAULT_MAX_NB_REFINEMENT] of the string solver. *)
Variable ofstream_good : string -> bool.
Variable DEFAULT_MAX_NB_REFINEMENT : Z.

Variable f : solver_factoryt.

Let opt : optionst := options f.

(** The time limit a conversion layer gets from
    [set_prop_conv_time_limit]. *)
Definition set_prop_conv_time_limit : option Z :=
  let timeout_seconds := get_signed_int_option opt "solver-time-limit" in
  if 0 <? timeout_seconds then Some timeout_seconds else None.

Definition no_beautification : result unit :=
  if get_bool_option opt "beautify" then
    Throw (invalid_command_line_argument_exceptiont
             "the chosen solver does not support beautification"
             "--beautify" "")
  else Ok tt.

Definition no_incremental_check : result unit :=
  let all_properties := get_bool_option opt "all-properties" in
  let cover := is_set opt "cover" in
  let incremental_check := is_set opt "incremental-check" in
  if all_properties then
    Throw (invalid_command_line_argument_exceptiont
             "the chosen solver does not support incremental solving"
             "--all_properties" "")
  else if cover then
    Throw (invalid_command_line_argument_exceptiont
             "the chosen solver does not support incremental solving"
             "--cover" "")
  else if incremental_check then
    Throw (invalid_command_line_argument_exceptiont
             "the chosen solver does not support incremental solving"
             "--incremental-check" "")
  else Ok tt.

(** Uses the options to pick an SMT 2.0 solver. *)
Definition get_smt2_solver_type : result smt2_dect.solvert :=
(* we shouldn't get here if this option isn't set *)
if negb (get_bool_option opt "smt2") then
  Abort "options.get_bool_option(smt2)"
else
  Ok (if get_bool_option opt "boolector" then smt2_dect.BOOLECTOR
      else if get_bool_option opt "cprover-smt2" then smt2_dect.CPROVER_SMT2
      else if get_bool_option opt "mathsat" then smt2_dect.MATHSAT
      else if get_bool_option opt "cvc3" then smt2_dect.CVC3
      else if get_bool_option opt "cvc4" then smt2_dect.CVC4
      else if get_bool_option opt "yices" then smt2_dect.YICES
      else if get_bool_option opt "z3" then smt2_dect.Z3
      else if get_bool_option opt "generic" then smt2_dect.GENERIC
      else smt2_dect.GENERIC).

Definition get_default : result solvert :=
  let prop :=
    if get_bool_option opt "beautify"
       || negb (get_bool_option opt "sat-preprocessor")
    then satcheck_no_simplifiert   (* no simplifier *)
    else satcheckt in              (* with simplifier *)
  let unbounded_array :=
    if decide (get_option opt "arrays-uf" = "never") then Some U_NONE
    else if decide (get_option opt "arrays-uf" = "always") then Some U_ALL
    else None in
  let bv_pointers :=
    bv_pointerst prop unbounded_array set_prop_conv_time_limit in
  Ok (solvert_prop bv_pointers prop).

Definition get_dimacs : result solvert :=
  no_beautification ;;;
  no_incremental_check ;;;
  let prop := dimacs_cnft in
  let filename := get_option opt "outfile" in
  let bv_dimacs := bv_dimacst prop filename in
  Ok (solvert_prop bv_dimacs prop).

Definition refinement_info : bv_refinement_infot :=
  {| output_xml := output_xml_in_refinement f;
     max_node_refinement :=
       if get_bool_option opt "max-node-refinement"
       then Some (get_unsigned_int_option opt "max-node-refinement")
       else None;
     refine_arrays := get_bool_option opt "refine-arrays";
     refine_arithmetic := get_bool_option opt "refine-arithmetic" |}.

Definition get_bv_refinement : result solvert :=
  prop <- (if get_bool_option opt "sat-preprocessor"
           then no_beautification ;;; Ok satcheckt
           else Ok satcheck_no_simplifiert) ;;
  let prop_conv :=
    bv_refinementt prop refinement_info set_prop_conv_time_limit in
  Ok (solvert_prop prop_conv prop).

Definition get_string_refinement : result solvert :=
  let prop := satcheck_no_simplifiert in
  let prop_conv :=
    string_refinementt prop refinement_info DEFAULT_MAX_NB_REFINEMENT
      set_prop_conv_time_limit in
  Ok (solvert_prop prop_conv prop).

Definition get_smt2 (solver : smt2_dect.solvert) : result solvert :=
  no_beautification ;;;
  let filename := get_option opt "outfile" in
  if decide (filename = "") then
    match solver with
    | smt2_dect.GENERIC =>
        Throw (invalid_command_line_argument_exceptiont
                 "required filename not provided"
                 "--outfile"
                 "provide a filename with --outfile")
    | _ =>
        Ok (solvert1 (smt2_dect_conv "QF_AUFBV" solver
                        (get_bool_option opt "fpa")
                        set_prop_conv_time_limit))
    end
  else if decide (filename = "-") then
    Ok (solvert1 (smt2_convt "QF_AUFBV" solver to_cout
                    (get_bool_option opt "fpa")
                    set_prop_conv_time_limit))
  else
    if negb (ofstream_good filename) then
      Throw (invalid_command_line_argument_exceptiont
               ("failed to open file: " +:+ filename) "--outfile" "")
    else
      Ok (solvert_ofstream
            (smt2_convt "QF_AUFBV" solver (to_ofstream filename)
               (get_bool_option opt "fpa")
               set_prop_conv_time_limit)
            filename).

Definition get_solver : result solvert :=
  if get_bool_option opt "dimacs" then get_dimacs
  else if get_bool_option opt "refine" then get_bv_refinement
  else if get_bool_option opt "refine-strings" then get_string_refinement
  else if get_bool_option opt "smt2" then
    solver <- get_smt2_solver_type ;; get_smt2 solver
  else get_default.

End Factory.

(** The five families of back end, and the family a bundle belongs to. *)
Inductive back_endt : Type :=
| DIMACS_DUMPER | BV_REFINEMENT | STRING_REFINEMENT | SMT2 | DEFAULT_BV_SAT.

Definition back_end_of (s : solvert) : option back_endt :=
  match prop_conv_ptr s with
  | Some (bv_pointerst _ _ _) => Some DEFAULT_BV_SAT
  | Some (bv_dimacst _ _) => Some DIMACS_DUMPER
  | Some (bv_refinementt _ _ _) => Some BV_REFINEMENT
  | Some (string_refinementt _ _ _ _) => Some STRING_REFINEMENT
  | Some (smt2_dect_conv _ _ _ _) => Some SMT2
  | Some (smt2_convt _ _ _ _ _) => Some SMT2
  | None => None
  end.

(** The selection rule as the design document words it: the first of
    dimacs, refine, refine-strings, smt2 that is set, else the default. *)
Definition first_match (o : optionst) : back_endt :=
  if get_bool_option o "dimacs" then DIMACS_DUMPER
  else if get_bool_option o "refine" then BV_REFINEMENT
  else if get_bool_option o "refine-strings" then STRING_REFINEMENT
  else if get_bool_option o "smt2" then SMT2
  else DEFAULT_BV_SAT.

(** The constructor of each family. *)
Definition construct (good : string -> bool) (bound : Z)
    (f : solver_factoryt) (b : back_endt) : result solvert :=
  match b with
  | DIMACS_DUMPER => get_dimacs f
  | BV_REFINEMENT => get_bv_refinement f
  | STRING_REFINEMENT => get_string_refinement bound f
  | SMT2 => solver <- get_smt2_solver_type f ;; get_smt2 good f solver
  | DEFAULT_BV_SAT => get_default f
  end.

(** Whether the SAT back end of a bundle runs the preprocessor. *)
Definition has_sat_preprocessor (s : solvert) : bool :=
  match prop_ptr s with
  | Some satcheckt => true
  | _ => false
  end.

(** Whether one of the options the CNF dumper refuses is there: beautify
    or all-properties switched on, cover or incremental-check present. *)
Definition dimacs_refuses (o : optionst) : bool :=
  get_bool_option o "beautify"
  || get_bool_option o "all-properties"
  || is_set o "cover"
  || is_set o "incremental-check".

(** An option table given by the list of its entries, for concrete runs:
    boolean options read ["1"] as true. *)
Definition options_of (l : list (string * string)) : optionst :=
  let m : gmap string string := list_to_map l in
  {| get_bool_option := fun k =>
       match m !! k with Some v => bool_decide (v = "1") | None => false end;
     is_set := fun k => bool_decide (is_Some (m !! k));
     get_option := fun k => default "" (m !! k);
     get_signed_int_option := fun _ => 0;
     get_unsigned_int_option := fun _ => 0 |}.

Definition factory_of (l : list (string * string)) : solver_factoryt :=
  {| options := options_of l; output_xml_in_refinement := false |}.

End SolverFactory.

(** ** The symbolic execution core *)

Module Symex.

Definition irep_idt : Type := string.

(** *** Expressions

    Modelled from the spec: the expression library is not part of the
    sources at hand. An expression is a tagged tree; the tags the
    functions below test for are kept apart, the rest are [other_exprt]. *)
Local Unset Elimination Schemes.
Inductive exprt : Type :=
| nil_exprt
| true_exprt
| false_exprt
| symbol_exprt (identifier : irep_idt)
| not_exprt (op : exprt)
| implies_exprt (op0 op1 : exprt)
| and_exprt (operands : list exprt)
| or_exprt (operands : list exprt)
| forall_exprt (symbol : irep_idt) (where_ : exprt)
| exists_exprt (symbol : irep_idt) (where_ : exprt)
| other_exprt (id : irep_idt) (operands : list exprt).
Local Set Elimination Schemes.

Inductive irep_idnt : Type := ID_forall | ID_exists | ID_and | ID_or.

Definition has_id (e : exprt) (i : irep_idnt) : bool :=
  match e, i with
  | forall_exprt _ _, ID_forall => true
  | exists_exprt _ _, ID_exists => true
  | and_exprt _, ID_and => true
  | or_exprt _, ID_or => true
  | _, _ => false
  end.

Definition is_true (e : exprt) : bool :=
  match e with true_exprt => true | _ => false end.
Definition is_false (e : exprt) : bool :=
  match e with false_exprt => true | _ => false end.
Definition is_not_nil (e : exprt) : bool :=
  match e with nil_exprt => false | _ => true end.

(** [has_subexpr(expr, id)]: some node of the tree carries the tag. *)
Fixpoint has_subexpr (e : exprt) (i : irep_idnt) : bool :=
  has_id e i ||
  match e with
  | not_exprt a => has_subexpr a i
  | implies_exprt a b => has_subexpr a i || has_subexpr b i
  | and_exprt l | or_exprt l | other_exprt _ l =>
      existsb (fun o => has_subexpr o i) l
  | forall_exprt _ w | exists_exprt _ w => has_subexpr w i
  | _ => false
  end.

(** *** Goto programs *)

Inductive goto_program_instruction_typet : Type :=
| NO_INSTRUCTION_TYPE | GOTO | ASSUME | ASSERT | OTHER | SKIP
| START_THREAD | END_THREAD | LOCATION | END_FUNCTION
| ATOMIC_BEGIN | ATOMIC_END | RETURN | ASSIGN | DECL | DEAD
| FUNCTION_CALL | THROW | CATCH.

(** [goto_programt::const_targett]: an iterator, here the address of an
    instruction; [++] is the successor. *)
Definition targett : Type := Z.

Inductive codet : Type :=
| code_assignt (lhs rhs : exprt)
| code_function_callt (lhs function : exprt) (arguments : list exprt)
| code_othert (statement : irep_idt) (operands : list exprt).

Module instructiont.
Record t : Type := mk {
  type : goto_program_instruction_typet;
  guard : exprt;
  code : codet;
  location_number : Z;
  loop_number : Z;
  comment : string;               (* source_location.get_comment() *)
  targets : list targett;         (* where a goto or a thread start leads *)
  incoming_edges : list targett;
  is_backwards_goto : bool        (* the answer of is_backwards_goto() *)
}.
Definition is_goto (i : t) : bool :=
  match type i with GOTO => true | _ => false end.
End instructiont.

(** Modelled from the spec: [goto_programt::loop_id] is not part of the
    sources at hand. The iteration counters of a frame are keyed by loop id;
    a loop is named by its function and its number in that function. *)
Definition loop_idt : Type := irep_idt * Z.
Definition loop_id (function_id : irep_idt) (i : instructiont.t) : loop_idt :=
  (function_id, instructiont.loop_number i).

(** *** Types provided by other parts of the simulator *)

Class externals : Type := {
  (** path conditions, with the operations of the guard algebra *)
  guardt : Type;
  guard_add : guardt -> exprt -> guardt;          (* g.add(e) *)
  guard_as_expr : guardt -> exprt;                (* g.as_expr() *)
  guard_is_false : guardt -> bool;                (* g.is_false() *)
  guard_expr : guardt -> exprt -> exprt;          (* g.guard_expr(e) *)
  (** the part of the state no function below reads or writes itself:
      symbol table, renaming levels, value sets, pending goto states *)
  opaque_statet : Type;
  (** the goto functions: what an iterator points to *)
  instruction_at : targett -> instructiont.t
}.

Module sourcet.
Record t : Type := mk {
  function_id : irep_idt;
  pc : targett;
  thread_nr : Z
}.
End sourcet.

(** Steps of the target equation, as the calls on [target] record them. *)
Inductive SSA_stept : Type :=
| location (guard : exprt) (source : sourcet.t)
| assumption (guard cond : exprt) (source : sourcet.t)
| assertion (guard cond : exprt) (msg : string) (source : sourcet.t)
| other_step (kind : string) (guard : exprt) (operands : list exprt)
    (source : sourcet.t).

Module loop_infot.
Record t : Type := mk { count : Z; is_recursion : bool }.
Definition fresh : t := mk 0 false.
End loop_infot.

Module framet.
Record t : Type := mk {
  function_identifier : irep_idt;
  loop_iterations : gmap loop_idt loop_infot.t;
  end_of_function : targett;
  calling_location_pc : targett;
  hidden_function : bool
}.
Definition set_loop_iterations (m : gmap loop_idt loop_infot.t) (fr : t) : t :=
  mk (function_identifier fr) m (end_of_function fr)
     (calling_location_pc fr) (hidden_function fr).
End framet.

Section State.
Context {E : externals}.

(** Modelled from the spec: the declaration of the state is not part of
    the sources at hand. A thread record holds a program counter, a guard
    snapshot and an atomic-section id; the frames of a thread stay with
    it, and the call stack of the state is the one of the active thread. *)
Record threadt : Type := mk_thread {
  t_pc : targett;
  t_guard : guardt;
  t_call_stack : list framet.t;     (* the top frame first *)
  t_atomic_section_id : Z
}.

(** [goto_symex_statet], the fields used here; the counters are
    [unsigned]. *)
Record statet : Type := mk_state {
  depth : Z;
  guard : guardt;
  source : sourcet.t;
  threads : list threadt;
  atomic_section_id : Z;
  total_vccs : Z;
  remaining_vccs : Z;
  opaque : opaque_statet
}.

Record symex_configt : Type := mk_config {
  max_depth : Z;
  doing_path_exploration : bool
}.

(** [goto_symext], the members used here; [target] is the equation the
    object writes to. *)
Record goto_symext : Type := mk_symex {
  should_pause_symex : bool;
  symex_config : symex_configt;
  target : list SSA_stept;
  atomic_section_counter : Z;
  path_segment_vccs : Z;
  _total_vccs : Z;
  _remaining_vccs : Z
}.

(** A simulator object together with the state it works on. *)
Record worldt : Type := mk_world {
  this : goto_symext;
  state : statet
}.

End State.



(** size_t arithmetic: 64 bits, wrapping. *)
Definition wrap64 (z : Z) : Z := z mod 2 ^ 64.

Section Core.
Context {E : externals}.

(** *** Field updates *)

Definition set_t_pc (v : targett) (t : threadt) : threadt :=
  mk_thread v (t_guard t) (t_call_stack t) (t_atomic_section_id t).
Definition set_t_call_stack (v : list framet.t) (t : threadt) : threadt :=
  mk_thread (t_pc t) (t_guard t) v (t_atomic_section_id t).
Definition set_t_atomic_section_id (v : Z) (t : threadt) : threadt :=
  mk_thread (t_pc t) (t_guard t) (t_call_stack t) v.

Definition set_depth (v : Z) (s : statet) : statet :=
  mk_state v (guard s) (source s) (threads s) (atomic_section_id s)
    (total_vccs s) (remaining_vccs s) (opaque s).
Definition set_guard (v : guardt) (s : statet) : statet :=
  mk_state (depth s) v (source s) (threads s) (atomic_section_id s)
    (total_vccs s) (remaining_vccs s) (opaque s).
Definition set_source (v : sourcet.t) (s : statet) : statet :=
  mk_state (depth s) (guard s) v (threads s) (atomic_section_id s)
    (total_vccs s) (remaining_vccs s) (opaque s).
Definition set_threads (v : list threadt) (s : statet) : statet :=
  mk_state (depth s) (guard s) (source s) v (atomic_section_id s)
    (total_vccs s) (remaining_vccs s) (opaque s).
Definition set_atomic_section_id (v : Z) (s : statet) : statet :=
  mk_state (depth s) (guard s) (source s) (threads s) v
    (total_vccs s) (remaining_vccs s) (opaque s).
Definition set_total_vccs (v : Z) (s : statet) : statet :=
  mk_state (depth s) (guard s) (source s) (threads s) (atomic_section_id s)
    v (remaining_vccs s) (opaque s).
Definition set_remaining_vccs (v : Z) (s : statet) : statet :=
  mk_state (depth s) (guard s) (source s) (threads s) (atomic_section_id s)
    (total_vccs s) v (opaque s).

Definition set_pc (v : targett) (s : statet) : statet :=
  set_source (sourcet.mk (sourcet.function_id (source s)) v
                (sourcet.thread_nr (source s))) s.
Definition set_thread_nr (v : Z) (s : statet) : statet :=
  set_source (sourcet.mk (sourcet.function_id (source s))
                (sourcet.pc (source s)) v) s.

Definition set_target (v : list SSA_stept) (x : goto_symext) : goto_symext :=
  mk_symex (should_pause_symex x) (symex_config x) v
    (atomic_section_counter x) (path_segment_vccs x)
    (_total_vccs x) (_remaining_vccs x).
Definition set_path_segment_vccs (v : Z) (x : goto_symext) : goto_symext :=
  mk_symex (should_pause_symex x) (symex_config x) (target x)
    (atomic_section_counter x) v (_total_vccs x) (_remaining_vccs x).
Definition set_vccs_cache (total remaining : Z) (x : goto_symext)
  : goto_symext :=
  mk_symex (should_pause_symex x) (symex_config x) (target x)
    (atomic_section_counter x) (path_segment_vccs x) total remaining.

Definition with_state (f : statet -> statet) (w : worldt) : worldt :=
  mk_world (this w) (f (state w)).
Definition with_this (f : goto_symext -> goto_symext) (w : worldt) : worldt :=
  mk_world (f (this w)) (state w).

(** [target.location], [target.assumption], [target.assertion]: a step is
    appended to the equation. *)
Definition emit (step : SSA_stept) (w : worldt) : worldt :=
  with_this (fun x => set_target (target x ++ [step]) x) w.

(** *** The call stack of the active thread

    [state.call_stack()] is the stack of thread [source.thread_nr];
    [state.top()] is its top frame. *)
Definition call_stack (s : statet) : list framet.t :=
  match threads s !! Z.to_nat (sourcet.thread_nr (source s)) with
  | Some t => t_call_stack t
  | None => []
  end.

Definition set_top (fr : framet.t) (s : statet) : statet :=
  set_threads
    (alter (fun t => set_t_call_stack (fr :: tail (t_call_stack t)) t)
       (Z.to_nat (sourcet.thread_nr (source s))) (threads s)) s.

(** *** symex_transition *)

(** [frame.loop_iterations[loop_id].count = 0]: the entry is created when
    it is not there. *)
Definition reset_count (id : loop_idt) (fr : framet.t) : framet.t :=
  let m := framet.loop_iterations fr in
  let info := default loop_infot.fresh (m !! id) in
  framet.set_loop_iterations
    (<[id := loop_infot.mk 0 (loop_infot.is_recursion info)]> m) fr.

(** The test of one incoming edge. *)
Definition enters_loop (s : statet) (is_backwards_goto : bool)
    (i_e : targett) : bool :=
  instructiont.is_goto (instruction_at i_e)
  && instructiont.is_backwards_goto (instruction_at i_e)
  && (negb is_backwards_goto
      || (instructiont.location_number
            (instruction_at (sourcet.pc (source s)))
          >? instructiont.location_number (instruction_at i_e))).

Definition symex_transition (s : statet) (to : targett)
    (is_backwards_goto : bool) : statet :=
  let s1 :=
    match call_stack s with
    | [] => s
    | frame :: _ =>
        let instruction := instruction_at to in
        let frame' :=
          foldl (fun fr i_e =>
                   if enters_loop s is_backwards_goto i_e
                   then reset_count
                          (loop_id (sourcet.function_id (source s))
                             (instruction_at i_e)) fr
                   else fr)
            frame (instructiont.incoming_edges instruction) in
        set_top frame' s
    end in
  set_pc to s1.

Definition symex_transition_next (s : statet) : statet :=
  let next := sourcet.pc (source s) + 1 in
  symex_transition s next false.

(** *** switch_to_thread *)

Definition switch_to_thread (s : statet) (thread_nb : Z) : result statet :=
  let size := Z.of_nat (length (threads s)) in
  if negb (sourcet.thread_nr (source s) <? size) then
    Abort "state.source.thread_nr < state.threads.size()"
  else if negb (thread_nb <? size) then
    Abort "thread_nb < state.threads.size()"
  else
    (* save PC *)
    let s1 :=
      set_threads
        (alter (fun t => set_t_atomic_section_id (atomic_section_id s)
                           (set_t_pc (sourcet.pc (source s)) t))
           (Z.to_nat (sourcet.thread_nr (source s))) (threads s)) s in
    (* get new PC *)
    match threads s1 !! Z.to_nat thread_nb with
    | None => Abort "thread_nb < state.threads.size()"
    | Some t =>
        let s2 := set_thread_nr thread_nb s1 in
        let s3 := set_pc (t_pc t) s2 in
        Ok (set_guard (t_guard t) s3)
    end.

End Core.

(** *** Functions defined in other translation units

    The simplifier, the renamer, expression cleaning, goto merging and the
    per-kind handlers the dispatcher hands instructions to. A handler either
    returns the new simulator and state, or throws, or aborts. *)
Class collaborators {E : externals} : Type := {
  do_simplify : exprt -> exprt;
  rename : statet -> exprt -> exprt;
  get_original_expr : irep_idt -> irep_idt;
  clean_expr : exprt -> worldt -> bool -> result (exprt * worldt);
  merge_gotos : worldt -> result worldt;
  symex_goto : worldt -> result worldt;
  symex_start_thread : worldt -> result worldt;
  symex_atomic_begin : worldt -> result worldt;
  symex_atomic_end : worldt -> result worldt;
  symex_decl : worldt -> result worldt;
  symex_decl_symbol : worldt -> irep_idt -> result worldt;
  symex_dead : worldt -> result worldt;
  symex_other : worldt -> result worldt;
  symex_end_of_function : worldt -> result worldt;
  return_assignment : worldt -> result worldt;
  symex_assign : worldt -> codet -> result worldt;
  symex_function_call : worldt -> codet -> result worldt;
  symex_catch : worldt -> result worldt;
  symex_throw : worldt -> result worldt
}.

Section Simulator.
Context {E : externals} {C : collaborators}.

(** *** rewrite_quantifiers

    [forall X. P] becomes [P] after declaring [X] afresh; conjunctions and
    disjunctions are descended into, operand by operand. *)
Definition rewrite_operands
    (rewrite : exprt -> worldt -> result (exprt * worldt))
  : list exprt -> worldt -> result (list exprt * worldt) :=
  fix operands_rec (ops : list exprt) (w : worldt) :=
    match ops with
    | [] => Ok ([], w)
    | op :: ops' =>
        p <- rewrite op w ;;
        q <- operands_rec ops' (snd p) ;;
        Ok (fst p :: fst q, snd q)
    end.

Fixpoint rewrite_quantifiers (expr : exprt) (w : worldt)
  : result (exprt * worldt) :=
  match expr with
  | forall_exprt symbol where_ =>
      (* forall X. P -> P
         we keep the quantified variable unique by means of L2 renaming *)
      let tmp0 := get_original_expr symbol in
      w1 <- symex_decl_symbol w tmp0 ;;
      rewrite_quantifiers where_ w1
  | and_exprt ops =>
      p <- rewrite_operands rewrite_quantifiers ops w ;;
      Ok (and_exprt (fst p), snd p)
  | or_exprt ops =>
      p <- rewrite_operands rewrite_quantifiers ops w ;;
      Ok (or_exprt (fst p), snd p)
  | _ => Ok (expr, w)
  end.

(** *** vcc *)

(** The first half of [vcc]: the counters, and the rewriting of a
    quantified condition. *)
Definition vcc_count (w : worldt) : worldt :=
  let w := with_state
             (fun s => set_total_vccs (wrap32 (total_vccs s + 1)) s) w in
  with_this
    (fun x => set_path_segment_vccs (wrap64 (path_segment_vccs x + 1)) x) w.

Definition vcc_quantifiers (expr : exprt) (w : worldt)
  : result (exprt * worldt) :=
  (* we are willing to re-write some quantified expressions *)
  if has_subexpr expr ID_exists || has_subexpr expr ID_forall then
    (* have negation pushed inwards as far as possible *)
    rewrite_quantifiers (do_simplify expr) w
  else Ok (expr, w).

Definition vcc (vcc_expr : exprt) (msg : string) (w : worldt)
  : result worldt :=
  let w := vcc_count w in
  p <- vcc_quantifiers vcc_expr w ;;
  let w := snd p in
  (* now rename, enables propagation *)
  let expr := rename (state w) (fst p) in
  (* now try simplifier on it *)
  let expr := do_simplify expr in
  if is_true expr then Ok w
  else
    let expr := guard_expr (guard (state w)) expr in
    let w := with_state
               (fun s => set_remaining_vccs (wrap32 (remaining_vccs s + 1)) s)
               w in
    Ok (emit (assertion (guard_as_expr (guard (state w))) expr msg
                (source (state w))) w).

(** *** symex_assume *)

(** The middle of [symex_assume], for a condition that did not simplify to
    true: an assumption step with one thread, the guard otherwise. *)
Definition assume_record (simplified_cond : exprt) (w : worldt) : worldt :=
  if decide (length (threads (state w)) = 1%nat) then
    let tmp := guard_expr (guard (state w)) simplified_cond in
    emit (assumption (guard_as_expr (guard (state w))) tmp
            (source (state w))) w
  else
    with_state
      (fun s => set_guard (guard_add (guard s) simplified_cond) s) w.

Definition symex_assume (w : worldt) (cond : exprt) : result worldt :=
  let simplified_cond := do_simplify cond in
  if is_true simplified_cond then Ok w
  else
    let w := assume_record simplified_cond w in
    if negb (atomic_section_id (state w) =? 0)
       && guard_is_false (guard (state w))
    then symex_atomic_end w
    else Ok w.

(** *** symex_step *)

Definition transition (w : worldt) : result worldt :=
  Ok (with_state symex_transition_next w).

(** Cleaning the operands of a call, first to last. *)
Fixpoint clean_arguments (args : list exprt) (w : worldt)
  : result (list exprt * worldt) :=
  match args with
  | [] => Ok ([], w)
  | a :: args' =>
      p <- clean_expr a w false ;;
      q <- clean_arguments args' (snd p) ;;
      Ok (fst p :: fst q, snd q)
  end.

(** The [switch] on the instruction type. *)
Definition dispatch (instruction : instructiont.t) (w : worldt)
  : result worldt :=
  let guard_false := guard_is_false (guard (state w)) in
  match instructiont.type instruction with
  | SKIP =>
      let w := if negb guard_false
               then emit (location (guard_as_expr (guard (state w)))
                            (source (state w))) w
               else w in
      transition w
  | END_FUNCTION =>
      (* do even if state.guard.is_false() to clear out frame created
         in symex_start_thread *)
      w <- symex_end_of_function w ;; transition w
  | LOCATION =>
      let w := if negb guard_false
               then emit (location (guard_as_expr (guard (state w)))
                            (source (state w))) w
               else w in
      transition w
  | GOTO => symex_goto w
  | ASSUME =>
      w <- (if negb guard_false then
              p <- clean_expr (instructiont.guard instruction) w false ;;
              let tmp := rename (state (snd p)) (fst p) in
              symex_assume (snd p) tmp
            else Ok w) ;;
      transition w
  | ASSERT =>
      w <- (if negb guard_false then
              let msg :=
                instructiont.comment
                  (instruction_at (sourcet.pc (source (state w)))) in
              let msg := if decide (msg = "") then "assertion" else msg in
              p <- clean_expr (instructiont.guard instruction) w false ;;
              vcc (fst p) msg (snd p)
            else Ok w) ;;
      transition w
  | RETURN =>
      w <- (if negb guard_false then return_assignment w else Ok w) ;;
      transition w
  | ASSIGN =>
      w <- (if negb guard_false
            then symex_assign w (instructiont.code instruction)
            else Ok w) ;;
      transition w
  | FUNCTION_CALL =>
      if negb guard_false then
        match instructiont.code instruction with
        | code_function_callt lhs function arguments =>
            p <- (if is_not_nil lhs then clean_expr lhs w true
                  else Ok (lhs, w)) ;;
            q <- clean_expr function (snd p) false ;;
            r <- clean_arguments arguments (snd q) ;;
            symex_function_call (snd r)
              (code_function_callt (fst p) (fst q) (fst r))
        | _ => Abort "to_code_function_call"
        end
      else transition w
  | OTHER =>
      w <- (if negb guard_false then symex_other w else Ok w) ;;
      transition w
  | DECL =>
      w <- (if negb guard_false then symex_decl w else Ok w) ;;
      transition w
  | DEAD => w <- symex_dead w ;; transition w
  | START_THREAD => w <- symex_start_thread w ;; transition w
  | END_THREAD =>
      (* behaves like assume(0); *)
      let w := if negb guard_false
               then with_state
                      (fun s => set_guard (guard_add (guard s) false_exprt) s)
                      w
               else w in
      transition w
  | ATOMIC_BEGIN => w <- symex_atomic_begin w ;; transition w
  | ATOMIC_END => w <- symex_atomic_end w ;; transition w
  | CATCH => w <- symex_catch w ;; transition w
  | THROW => w <- symex_throw w ;; transition w
  | NO_INSTRUCTION_TYPE =>
      Throw (unsupported_operation_exceptiont "symex got NO_INSTRUCTION")
  end.

(** What [symex_step] does before the [switch]: goto merging, the depth
    bound, the depth counter. *)
Definition symex_step_prologue (w : worldt) : result worldt :=
  w <- (if negb (doing_path_exploration (symex_config (this w)))
        then merge_gotos w else Ok w) ;;
  (* depth exceeded? *)
  let cfg := symex_config (this w) in
  let w := if negb (max_depth cfg =? 0)
              && (depth (state w) >? max_depth cfg)
           then with_state
                  (fun s => set_guard (guard_add (guard s) false_exprt) s) w
           else w in
  Ok (with_state (fun s => set_depth (wrap32 (depth s + 1)) s) w).

(** do just one step *)
Definition symex_step (w : worldt) : result worldt :=
  match threads (state w) with
  | [] => Abort "!state.threads.empty()"
  | _ =>
      match call_stack (state w) with
      | [] => Abort "!state.call_stack().empty()"
      | _ =>
          let instruction :=
            instruction_at (sourcet.pc (source (state w))) in
          w <- symex_step_prologue w ;;
          (* actually do instruction *)
          dispatch instruction w
      end
  end.

(** *** symex_threaded_step *)

Definition symex_threaded_step (w : worldt) : result worldt :=
  w <- symex_step w ;;
  let w := with_this
             (set_vccs_cache (total_vccs (state w))
                (remaining_vccs (state w))) w in
  if should_pause_symex (this w) then Ok w
  else
    (* is there another thread to execute? *)
    let s := state w in
    if bool_decide (call_stack s = [])
       && (wrap32 (sourcet.thread_nr (source s) + 1)
           <? Z.of_nat (length (threads s)))
    then
      let t := wrap32 (sourcet.thread_nr (source s) + 1) in
      s <- switch_to_thread s t ;;
      Ok (mk_world (this w)
            (symex_transition s (sourcet.pc (source s)) false))
    else Ok w.

(** *** The dispatcher's two kinds of [case]

    Ten instruction types are handled under [if(!state.guard.is_false())]
    in the [switch] itself; eight are handed to their handler whatever the
    guard is. *)
Definition tests_guard (k : goto_program_instruction_typet) : bool :=
  match k with
  | SKIP | LOCATION | ASSUME | ASSERT | RETURN | ASSIGN | FUNCTION_CALL
  | OTHER | DECL | END_THREAD => true
  | _ => false
  end.




(** The last statement of [symex_assume]. *)
Definition end_atomic_if_infeasible (w : worldt) : result worldt :=
  if negb (atomic_section_id (state w) =? 0)
     && guard_is_false (guard (state w))
  then symex_atomic_end w
  else Ok w.

(** Two worlds on the same path position: same VCC counters, same guard,
    same source. *)
Definition same_path (v v' : worldt) : Prop :=
  total_vccs (state v') = total_vccs (state v)
  /\ remaining_vccs (state v') = remaining_vccs (state v)
  /\ guard (state v') = guard (state v)
  /\ source (state v') = source (state v).

(** Modelled from the spec: the body of symex_decl is not part of the
    sources at hand. A declaration introduces fresh names for the symbol and
    emits a declaration step; the VCC counters, the guard and the source
    are not its business. *)
Definition decl_keeps_path : Prop :=
  forall v x v', symex_decl_symbol v x = Ok v' -> same_path v v'.

(** Modelled from the spec: the body of symex_atomic_end is not part of
    the sources at hand. Ending an atomic region returns, with the
    atomic-section id back at zero, the value it has outside any atomic
    region. *)
Definition atomic_end_resets : Prop :=
  forall v,
    atomic_section_id (state v) <> 0 ->
    exists v', symex_atomic_end v = Ok v' /\ atomic_section_id (state v') = 0.

(** The invariant on infeasible states: a false guard goes with
    atomic-section id zero. *)
Definition infeasible_outside_atomic (w : worldt) : Prop :=
  guard_is_false (guard (state w)) = true -> atomic_section_id (state w) = 0.

End Simulator.

(** *** A reference instance of the surrounding parts

    Used to run the simulator on concrete programs. *)

Module Reference.

(** Structural equality of expressions. *)
Fixpoint expr_eqb (a b : exprt) : bool :=
  let list_eqb :=
    fix list_eqb (l : list exprt) (m : list exprt) : bool :=
      match l, m with
      | [], [] => true
      | x :: l', y :: m' => expr_eqb x y && list_eqb l' m'
      | _, _ => false
      end in
  match a, b with
  | nil_exprt, nil_exprt => true
  | true_exprt, true_exprt => true
  | false_exprt, false_exprt => true
  | symbol_exprt x, symbol_exprt y => String.eqb x y
  | not_exprt x, not_exprt y => expr_eqb x y
  | implies_exprt x1 x2, implies_exprt y1 y2 =>
      expr_eqb x1 y1 && expr_eqb x2 y2
  | and_exprt l, and_exprt m => list_eqb l m
  | or_exprt l, or_exprt m => list_eqb l m
  | forall_exprt x p, forall_exprt y q => String.eqb x y && expr_eqb p q
  | exists_exprt x p, exists_exprt y q => String.eqb x y && expr_eqb p q
  | other_exprt i l, other_exprt j m => String.eqb i j && list_eqb l m
  | _, _ => false
  end.

(** Modelled from the spec: the guard class is not part of the sources at
    hand. A guard is a conjunction list: an added false collapses the
    guard, adding the constant true is a no-op, identical conjuncts are
    not repeated. *)
Definition add (g : list exprt) (e : exprt) : list exprt :=
  if existsb is_false g then g
  else if is_true e then g
  else if is_false e then [false_exprt]
  else if existsb (expr_eqb e) g then g
  else g ++ [e].

(** Modelled from the spec: the conjunctive guard expression. *)
Definition as_expr (g : list exprt) : exprt :=
  match g with
  | [] => true_exprt
  | [e] => e
  | _ => and_exprt g
  end.

(** Modelled from the spec: [guard_expr(e)] is [g => e]. *)
Definition guard_expr_impl (g : list exprt) (e : exprt) : exprt :=
  implies_exprt (as_expr g) e.

(** The externals over a given goto program; the opaque part of the state
    is the list of the names declared so far. *)
Definition externals_of (program : targett -> instructiont.t) : externals :=
  {| guardt := list exprt;
     guard_add := add;
     guard_as_expr := as_expr;
     guard_is_false := existsb is_false;
     guard_expr := guard_expr_impl;
     opaque_statet := list irep_idt;
     instruction_at := program |}.

Section Handlers.
Variable program : targett -> instructiont.t.
Let E : externals := externals_of program.
Existing Instance E.

(** A handler of the reference instance leaves its name in the equation,
    so that a run shows which handlers the dispatcher called. *)
Definition log (name : string) (w : worldt) : worldt :=
  emit (other_step name (guard_as_expr (guard (state w))) []
          (source (state w))) w.

(** Modelled from the spec: the body of symex_atomic_end is not part of
    the sources at hand. Ending the atomic region puts the atomic-section id
    back to zero, also on a false guard (bookkeeping). *)
Definition atomic_end (w : worldt) : result worldt :=
  Ok (log "atomic_end" (with_state (set_atomic_section_id 0) w)).

(** Modelled from the spec: the body of symex_end_of_function is not part
    of the sources at hand. The frame is popped, also on a false guard. *)
Definition end_of_function (w : worldt) : result worldt :=
  let s := state w in
  let pop t := set_t_call_stack (tail (t_call_stack t)) t in
  Ok (log "end_function"
        (with_state
           (set_threads
              (alter pop (Z.to_nat (sourcet.thread_nr (source s)))
                 (threads s))) w)).

(** Modelled from the spec: the body of symex_decl is not part of the
    sources at hand. The name is recorded and a declaration step is
    emitted. *)
Definition decl_symbol (w : worldt) (x : irep_idt) : result worldt :=
  let s := state w in
  let s' := mk_state (depth s) (guard s) (source s) (threads s)
              (atomic_section_id s) (total_vccs s) (remaining_vccs s)
              (x :: opaque s) in
  Ok (emit (other_step "decl" (guard_as_expr (guard s)) [symbol_exprt x]
              (source s)) (mk_world (this w) s')).

(** Modelled from the spec: the body of symex_start_thread is not part of
    the sources at hand. On a false guard nothing is done. Otherwise a new
    thread record is appended, with its own pc (the code address in the
    instruction), a copy of the guard of the parent and atomic-section id
    0; it starts on a frame of its own. *)
Definition start_thread (w : worldt) : result worldt :=
  let s := state w in
  if guard_is_false (guard s) then Ok w
  else
    match instructiont.targets (instruction_at (sourcet.pc (source s))) with
    | [] => Abort "get_target"
    | t :: _ =>
        Ok (with_state
              (set_threads
                 (threads s
                  ++ [mk_thread t (guard s) (take 1 (call_stack s)) 0]))
              w)
    end.

Definition logged (name : string) (w : worldt) : result worldt :=
  Ok (log name w).

(** Modelled from the spec: the bodies of symex_atomic_begin, symex_catch
    and symex_throw are not part of the sources at hand. On a false guard
    the effects of an instruction are skipped. *)
Definition on_feasible (handler : worldt -> result worldt) (w : worldt)
  : result worldt :=
  if guard_is_false (guard (state w)) then Ok w else handler w.

(** Modelled from the spec: the body of symex_goto is not part of the
    sources at hand. On a false guard the program counter just moves to the
    next instruction; the programs run here have no other goto to take. *)
Definition goto (w : worldt) : result worldt :=
  if guard_is_false (guard (state w)) then transition w
  else transition (log "goto" w).

Definition collaborators_of : collaborators :=
  {| do_simplify := fun e => e;
     rename := fun _ e => e;
     get_original_expr := fun x => x;
     clean_expr := fun e w _ => Ok (e, w);
     merge_gotos := fun w => Ok w;
     symex_goto := goto;
     symex_start_thread := start_thread;
     symex_atomic_begin := on_feasible (logged "atomic_begin");
     symex_atomic_end := atomic_end;
     symex_decl := logged "decl";
     symex_decl_symbol := decl_symbol;
     symex_dead := logged "dead";
     symex_other := logged "other";
     symex_end_of_function := end_of_function;
     return_assignment := logged "return";
     symex_assign := fun w _ => logged "assign" w;
     symex_function_call := fun w _ => logged "function_call" w;
     symex_catch := on_feasible (logged "catch");
     symex_throw := on_feasible (logged "throw") |}.

End Handlers.

(** A second instance, with the goto states that wait to be merged: the
    opaque part of the state is the queue of the guards saved under their
    merge points. *)
Definition externals_with_queue (program : targett -> instructiont.t)
  : externals :=
  {| guardt := list exprt;
     guard_add := add;
     guard_as_expr := as_expr;
     guard_is_false := existsb is_false;
     guard_expr := guard_expr_impl;
     opaque_statet := list (targett * list exprt);
     instruction_at := program |}.

(** Modelled from the spec: the guard class is not part of the sources at
    hand. Guards combine at a merge by disjunction, simplified when one
    implies the other: a false guard gives way to the other one. *)
Definition or_guard (g1 g2 : list exprt) : list exprt :=
  if existsb is_false g1 then g2
  else if existsb is_false g2 then g1
  else [or_exprt [as_expr g1; as_expr g2]].

Section Merging.
Variable program : targett -> instructiont.t.
Let E : externals := externals_with_queue program.
Existing Instance E.

(** Modelled from the spec: the body of merge_gotos is not part of the
    sources at hand. The goto states saved under the current program
    counter are taken off the queue and merged into the state; the guard
    becomes the disjunction. (No variable is written in the runs made
    here, so no phi assignment arises.) *)
Definition merge_pending (w : worldt) : result worldt :=
  let s := state w in
  let here p := fst p =? sourcet.pc (source s) in
  let merged :=
    foldl or_guard (guard s) (map snd (filter (fun p => here p = true)
                                         (opaque s))) in
  Ok (mk_world (this w)
        (mk_state (depth s) merged (source s) (threads s)
           (atomic_section_id s) (total_vccs s) (remaining_vccs s)
           (filter (fun p => here p = false) (opaque s)))).

(** Only goto merging is of interest in this instance; the handlers skip on
    a false guard and otherwise leave the state as it is. *)
Definition merging_collaborators : collaborators :=
  {| do_simplify := fun e => e;
     rename := fun _ e => e;
     get_original_expr := fun x => x;
     clean_expr := fun e w _ => Ok (e, w);
     merge_gotos := merge_pending;
     symex_goto := transition;
     symex_start_thread := fun w => Ok w;
     symex_atomic_begin := fun w => Ok w;
     symex_atomic_end := fun w => Ok w;
     symex_decl := fun w => Ok w;
     symex_decl_symbol := fun w _ => Ok w;
     symex_dead := fun w => Ok w;
     symex_other := fun w => Ok w;
     symex_end_of_function := fun w => Ok w;
     return_assignment := fun w => Ok w;
     symex_assign := fun w _ => Ok w;
     symex_function_call := fun w _ => Ok w;
     symex_catch := fun w => Ok w;
     symex_throw := fun w => Ok w |}.

End Merging.

End Reference.

End Symex.

(** ** Concrete inputs *)

Module Inputs.
Import SolverFactory.

(** Every output file opens; the refinement bound of the string solver. *)
Definition good : string -> bool := fun _ => true.
Definition bound : Z := 10.

(** The preprocessor switched off, nothing else chosen. *)
Definition no_preprocessor : solver_factoryt :=
  factory_of [("sat-preprocessor", "0")].
(** The preprocessor on, nothing else chosen. *)
Definition plain : solver_factoryt :=
  factory_of [("sat-preprocessor", "1")].
(** Both the CNF dump and SMT-LIB 2 asked for, no output file. *)
Definition dimacs_and_smt2 : solver_factoryt :=
  factory_of [("dimacs", "1"); ("smt2", "1")].
(** SMT-LIB 2 with beautification, no output file. *)
Definition smt2_beautify : solver_factoryt :=
  factory_of [("smt2", "1"); ("beautify", "1")].
(** SMT-LIB 2 alone, no output file. *)
Definition smt2_only : solver_factoryt :=
  factory_of [("smt2", "1")].
(** The CNF dump into a file. *)
Definition dimacs_to_file : solver_factoryt :=
  factory_of [("dimacs", "1"); ("refine", "1"); ("outfile", "out.cnf")].

End Inputs.

Module SymexInputs.
Import Symex.

Definition instr (k : goto_program_instruction_typet) (g : exprt)
    (location : Z) (edges : list targett) (backwards : bool)
  : instructiont.t :=
  instructiont.mk k g (code_othert "" []) location 0 ""
    (match k with GOTO => [0] | START_THREAD => [6] | _ => [] end)
    edges backwards.

(** One function, [main]: a loop from 0 to its backwards goto at 2, an
    assertion, the end of the function, and a thread start. *)
Definition program (pc : targett) : instructiont.t :=
  match pc with
  | 0 => instr SKIP true_exprt 0 [2] false
  | 1 => instr ASSUME (symbol_exprt "c") 1 [] false
  | 2 => instr GOTO true_exprt 2 [] true
  | 3 => instr ASSERT (symbol_exprt "p") 3 [] false
  | 4 => instr END_FUNCTION true_exprt 4 [] false
  | 5 => instr START_THREAD true_exprt 5 [] false
  | 6 => instr SKIP true_exprt 6 [] false
  | _ => instr NO_INSTRUCTION_TYPE nil_exprt pc [] false
  end.

Definition ext : externals := Reference.externals_of program.
Definition col : @collaborators ext := Reference.collaborators_of program.
#[local] Existing Instance ext.
#[local] Existing Instance col.

(** The frame of [main], three iterations into loop 0. *)
Definition frame3 : framet.t :=
  framet.mk "main" (<[("main", 0) := loop_infot.mk 3 false]> ∅) 4 4 false.

Definition thread_at (pc : targett) (g : list exprt)
    (stack : list framet.t) : threadt :=
  mk_thread pc g stack 0.

Definition state_at (pc : targett) (g : list exprt) (nr : Z)
    (ts : list threadt) (atomic : Z) : statet :=
  mk_state 0 g (sourcet.mk "main" pc nr) ts atomic 0 0 [].

Definition symex0 (pause : bool) : goto_symext :=
  mk_symex pause (mk_config 0 false) [] 0 0 (2 ^ 32 - 1) (2 ^ 32 - 1).

(** One thread, standing on the backwards goto of the loop. *)
Definition on_back_edge : statet :=
  state_at 2 [] 0 [thread_at 0 [] [frame3]] 0.

(** One thread, under the path condition [a]. *)
Definition single (pc : targett) : worldt :=
  mk_world (symex0 false)
    (state_at pc [symbol_exprt "a"] 0
       [thread_at 0 [] [frame3]] 0).

(** Two threads, thread 0 active inside atomic section 3, under the path
    condition [a]. *)
Definition two_threads_atomic : worldt :=
  mk_world (symex0 false)
    (state_at 1 [symbol_exprt "a"] 0
       [thread_at 0 [] [frame3];
        thread_at 6 [symbol_exprt "b"] [frame3]] 3).



(** Two threads, thread 0 at its last instruction, its atomic-section id
    still 7; thread 1 waits at 6 under [b]. *)
Definition last_instruction (pause : bool) : worldt :=
  mk_world (symex0 pause)
    (state_at 4 [symbol_exprt "a"] 0
       [thread_at 0 [] [frame3];
        thread_at 6 [symbol_exprt "b"] [frame3]] 7).

End SymexInputs.

Module MergeInputs.
Import Symex.

Definition ext : externals :=
  Reference.externals_with_queue SymexInputs.program.
Definition col : @collaborators ext :=
  Reference.merging_collaborators SymexInputs.program.


End MergeInputs.

(** ** More of the solver factory *)

Module SolverFactoryMore.
Import SolverFactory.

(** [solvert::prop_conv()] and [solvert::prop()]: the pointer must be
    there. *)
Definition prop_conv (s : solvert) : result prop_convt :=
  match prop_conv_ptr s with
  | Some p => Ok p
  | None => Abort "prop_conv_ptr != nullptr"
  end.

Definition prop (s : solvert) : result propt :=
  match prop_ptr s with
  | Some p => Ok p
  | None => Abort "prop_ptr != nullptr"
  end.

(** [set_prop_conv], [set_prop], [set_ofstream]. *)
Definition set_prop_conv (p : prop_convt) (s : solvert) : solvert :=
  {| prop_ptr := prop_ptr s; ofstream_ptr := ofstream_ptr s;
     prop_conv_ptr := Some p |}.
Definition set_prop (p : propt) (s : solvert) : solvert :=
  {| prop_ptr := Some p; ofstream_ptr := ofstream_ptr s;
     prop_conv_ptr := prop_conv_ptr s |}.
Definition set_ofstream (p : string) (s : solvert) : solvert :=
  {| prop_ptr := prop_ptr s; ofstream_ptr := Some p;
     prop_conv_ptr := prop_conv_ptr s |}.

(** [util_make_unique<solvert>()]: the bundle with nothing in it. *)
Definition empty_solvert : solvert :=
  {| prop_ptr := None; ofstream_ptr := None; prop_conv_ptr := None |}.

(** [get_default] statement by statement: the empty bundle, the SAT back
    end put in, read back through [prop()] for the conversion layer, and
    the conversion layer put in. *)
Definition get_default_stepwise (f : solver_factoryt) : result solvert :=
  let o := options f in
  let solver := empty_solvert in
  let solver :=
    if get_bool_option o "beautify"
       || negb (get_bool_option o "sat-preprocessor")
    then set_prop satcheck_no_simplifiert solver
    else set_prop satcheckt solver in
  p <- prop solver ;;
  let unbounded_array :=
    if decide (get_option o "arrays-uf" = "never") then Some U_NONE
    else if decide (get_option o "arrays-uf" = "always") then Some U_ALL
    else None in
  let bv_pointers :=
    bv_pointerst p unbounded_array (set_prop_conv_time_limit f) in
  Ok (set_prop_conv bv_pointers solver).

(** The time limit a conversion layer has been given, the SAT back end it
    converts for, and the SMT-LIB logic and theory switch of one that
    writes SMT-LIB. *)
Definition time_limit_of (p : prop_convt) : option Z :=
  match p with
  | bv_pointerst _ _ t => t
  | bv_dimacst _ _ => None
  | bv_refinementt _ _ t => t
  | string_refinementt _ _ _ t => t
  | smt2_dect_conv _ _ _ t => t
  | smt2_convt _ _ _ _ t => t
  end.

Definition prop_of (p : prop_convt) : option propt :=
  match p with
  | bv_pointerst q _ _ => Some q
  | bv_dimacst q _ => Some q
  | bv_refinementt q _ _ => Some q
  | string_refinementt q _ _ _ => Some q
  | smt2_dect_conv _ _ _ _ => None
  | smt2_convt _ _ _ _ _ => None
  end.

Definition smt2_logic_of (p : prop_convt) : option (string * bool) :=
  match p with
  | smt2_dect_conv logic _ fpa _ => Some (logic, fpa)
  | smt2_convt logic _ _ fpa _ => Some (logic, fpa)
  | _ => None
  end.

Definition smt2_out_of (p : prop_convt) : option smt2_outt :=
  match p with
  | smt2_convt _ _ out _ _ => Some out
  | _ => None
  end.

(** Two option tables that differ at most in the entries all-properties,
    cover and incremental-check. *)
Definition incremental_key (k : string) : Prop :=
  k = "all-properties" \/ k = "cover" \/ k = "incremental-check".

Definition same_but_incremental (o o' : optionst) : Prop :=
  forall k, ~ incremental_key k ->
    get_bool_option o k = get_bool_option o' k
    /\ is_set o k = is_set o' k
    /\ get_option o k = get_option o' k
    /\ get_signed_int_option o k = get_signed_int_option o' k
    /\ get_unsigned_int_option o k = get_unsigned_int_option o' k.

(** None of the seven named SMT solvers is chosen. *)
Definition no_named_solver (o : optionst) : bool :=
  negb (get_bool_option o "boolector"
        || get_bool_option o "cprover-smt2"
        || get_bool_option o "mathsat"
        || get_bool_option o "cvc3"
        || get_bool_option o "cvc4"
        || get_bool_option o "yices"
        || get_bool_option o "z3").

End SolverFactoryMore.

Module MoreInputs.
Import SolverFactory.

(** Beautification asked for, with the preprocessor on. *)
Definition beautify_default : solver_factoryt :=
  factory_of [("beautify", "1"); ("sat-preprocessor", "1")].
(** Refinement with all-properties and cover. *)
Definition refine_incremental : solver_factoryt :=
  factory_of [("refine", "1"); ("all-properties", "1"); ("cover", "1")].
Definition refine_plain : solver_factoryt :=
  factory_of [("refine", "1")].
(** SMT-LIB 2 for z3 with floating point, written to standard output. *)
Definition smt2_z3_stdout : solver_factoryt :=
  factory_of [("smt2", "1"); ("z3", "1"); ("fpa", "1"); ("outfile", "-")].
(** SMT-LIB 2 for the generic solver into a file. *)
Definition smt2_to_file : solver_factoryt :=
  factory_of [("smt2", "1"); ("generic", "1"); ("outfile", "out.smt2")].

End MoreInputs.

(** ** More of the symbolic execution core *)

Module SymexMore.
Import Symex.

(** A universal quantifier that [rewrite_quantifiers] gets to: at the top,
    or below conjunctions and disjunctions only. *)
Fixpoint exposed_forall (e : exprt) : bool :=
  match e with
  | forall_exprt _ _ => true
  | and_exprt l | or_exprt l => existsb exposed_forall l
  | _ => false
  end.

(** [std::numeric_limits<unsigned>::max()]. *)
Definition UINT_MAX : Z := 2 ^ 32 - 1.

Section More.
Context {E : externals} {C : collaborators}.

(** The constructor of [goto_symext], for a given configuration and
    equation. *)
Definition new_goto_symext (cfg : symex_configt) (equation : list SSA_stept)
  : goto_symext :=
  mk_symex false cfg equation 0 0 UINT_MAX UINT_MAX.

(** [get_total_vccs] and [get_remaining_vccs]: the cached value must not be
    the initial one. *)
Definition get_total_vccs (x : goto_symext) : result Z :=
  if decide (_total_vccs x = UINT_MAX) then
    Abort "symex_threaded_step should have been executed at least once before attempting to read total_vccs"
  else Ok (_total_vccs x).

Definition get_remaining_vccs (x : goto_symext) : result Z :=
  if decide (_remaining_vccs x = UINT_MAX) then
    Abort "symex_threaded_step should have been executed at least once before attempting to read remaining_vccs"
  else Ok (_remaining_vccs x).

(** The equation of [w'] is the equation of [w] with steps appended. *)
Definition extends (w w' : worldt) : Prop :=
  exists steps, target (this w') = (target (this w) ++ steps)%list.

(** A handler that only appends to the equation. *)
Definition appends_only (handler : worldt -> result worldt) : Prop :=
  forall v v', handler v = Ok v' -> extends v v'.

(** Modelled from the spec: the guard class is not part of the sources at
    hand. An added false collapses the guard. *)
Definition add_false_collapses : Prop :=
  forall g, guard_is_false (guard_add g false_exprt) = true.

(** Two frames that differ at most in their loop counters. *)
Definition same_frame_but_counters (fr fr' : framet.t) : Prop :=
  framet.function_identifier fr' = framet.function_identifier fr
  /\ framet.end_of_function fr' = framet.end_of_function fr
  /\ framet.calling_location_pc fr' = framet.calling_location_pc fr
  /\ framet.hidden_function fr' = framet.hidden_function fr.

End More.

End SymexMore.

Module MoreSymexInputs.
Import Symex.

(** [(forall x. exists y. p) and q]. *)
Definition quantified : exprt :=
  and_exprt [forall_exprt "x" (exists_exprt "y" (symbol_exprt "p"));
             symbol_exprt "q"].

(** One thread under [a] on the assertion at 3, two steps deep with a
    depth bound of one. *)
Definition deep : @worldt SymexInputs.ext :=
  mk_world (mk_symex false (mk_config 1 false) [] 0 0 (2 ^ 32 - 1)
              (2 ^ 32 - 1))
    (set_depth 2
       (SymexInputs.state_at 3 [symbol_exprt "a"] 0
          [SymexInputs.thread_at 0 [] [SymexInputs.frame3]] 0)).

(** The end of a thread, and an assertion. *)
Definition end_thread_instruction : instructiont.t :=
  SymexInputs.instr END_THREAD true_exprt 7 [] false.

(** [not (forall x. p)]: the quantifier is below a negation. *)
Definition negated : exprt :=
  not_exprt (forall_exprt "x" (symbol_exprt "p")).

End MoreSymexInputs.

(** * Properties *)

(** ** The solver factory *)

Module SolverFactoryFacts.
Import SolverFactory.

Section Facts.
Variable good : string -> bool.
Variable bound : Z.
Variable f : solver_factoryt.

Local Abbreviation o := (options f).

Lemma no_beautification_Ok :
  get_bool_option o "beautify" = false -> no_beautification f = Ok tt.
Proof. unfold no_beautification. intros ->. reflexivity. Qed.

Lemma no_incremental_check_Ok :
  get_bool_option o "all-properties" = false ->
  is_set o "cover" = false ->
  is_set o "incremental-check" = false ->
  no_incremental_check f = Ok tt.
Proof. unfold no_incremental_check. intros -> -> ->. reflexivity. Qed.

(** What each constructor returns, when it returns. *)
Lemma get_dimacs_back_end s :
  get_dimacs f = Ok s -> back_end_of s = Some DIMACS_DUMPER.
Proof.
  unfold get_dimacs.
  destruct (no_beautification f); simpl; try discriminate.
  destruct (no_incremental_check f); simpl; try discriminate.
  intros [= <-]. reflexivity.
Qed.

Lemma get_bv_refinement_back_end s :
  get_bv_refinement f = Ok s -> back_end_of s = Some BV_REFINEMENT.
Proof.
  unfold get_bv_refinement.
  destruct (get_bool_option o "sat-preprocessor"); simpl.
  - destruct (no_beautification f); simpl; try discriminate.
    intros [= <-]. reflexivity.
  - intros [= <-]. reflexivity.
Qed.

Lemma get_string_refinement_back_end s :
  get_string_refinement bound f = Ok s ->
  back_end_of s = Some STRING_REFINEMENT.
Proof. unfold get_string_refinement. intros [= <-]. reflexivity. Qed.

Lemma get_smt2_back_end solver s :
  get_smt2 good f solver = Ok s -> back_end_of s = Some SMT2.
Proof.
  unfold get_smt2.
  destruct (no_beautification f); simpl; try discriminate.
  repeat case_decide.
  - destruct solver; try discriminate; intros [= <-]; reflexivity.
  - intros [= <-]. reflexivity.
  - destruct (good _); simpl; try discriminate. intros [= <-]. reflexivity.
Qed.

Lemma get_default_back_end s :
  get_default f = Ok s -> back_end_of s = Some DEFAULT_BV_SAT.
Proof. unfold get_default. intros [= <-]. reflexivity. Qed.

Lemma construct_back_end b s :
  construct good bound f b = Ok s -> back_end_of s = Some b.
Proof.
  destruct b; simpl.
  - apply get_dimacs_back_end.
  - apply get_bv_refinement_back_end.
  - apply get_string_refinement_back_end.
  - destruct (get_smt2_solver_type f); simpl; try discriminate.
    apply get_smt2_back_end.
  - apply get_default_back_end.
Qed.

Lemma get_solver_construct :
  get_solver good bound f = construct good bound f (first_match o).
Proof.
  unfold get_solver, first_match.
  destruct (get_bool_option o "dimacs"); [reflexivity|].
  destruct (get_bool_option o "refine"); [reflexivity|].
  destruct (get_bool_option o "refine-strings"); [reflexivity|].
  destruct (get_bool_option o "smt2"); reflexivity.
Qed.

End Facts.

(** C6. [get_solver] builds the back end of the first rule that matches, in
    the order dimacs, refine, refine-strings, smt2, default: it is the
    constructor of that family that runs, and a bundle that comes back
    belongs to that family. With dimacs set the CNF dumper is chosen
    whatever refine says, and with refine set (and dimacs not) bit-vector
    refinement is chosen whatever refine-strings says. *)
Theorem get_solver_first_match (good : string -> bool) (bound : Z)
    (f : solver_factoryt) :
  get_solver good bound f = construct good bound f (first_match (options f))
  /\ (forall s, get_solver good bound f = Ok s ->
        back_end_of s = Some (first_match (options f)))
  /\ (get_bool_option (options f) "dimacs" = true ->
        get_solver good bound f = get_dimacs f)
  /\ (get_bool_option (options f) "dimacs" = false ->
      get_bool_option (options f) "refine" = true ->
        get_solver good bound f = get_bv_refinement f)
  /\ (get_bool_option (options f) "dimacs" = false ->
      get_bool_option (options f) "refine" = false ->
      get_bool_option (options f) "refine-strings" = true ->
        get_solver good bound f = get_string_refinement bound f)
  /\ (get_bool_option (options f) "dimacs" = false ->
      get_bool_option (options f) "refine" = false ->
      get_bool_option (options f) "refine-strings" = false ->
      get_bool_option (options f) "smt2" = true ->
        get_solver good bound f
        = (solver <- get_smt2_solver_type f ;; get_smt2 good f solver))
  /\ (get_bool_option (options f) "dimacs" = false ->
      get_bool_option (options f) "refine" = false ->
      get_bool_option (options f) "refine-strings" = false ->
      get_bool_option (options f) "smt2" = false ->
        get_solver good bound f = get_default f).
Proof.
  split; [apply get_solver_construct|].
  split.
  { intros s Hs. rewrite get_solver_construct in Hs.
    eapply construct_back_end; eassumption. }
  unfold get_solver.
  repeat split.
  - intros ->. reflexivity.
  - intros -> ->. reflexivity.
  - intros -> -> ->. reflexivity.
  - intros -> -> -> ->. reflexivity.
  - intros -> -> -> ->. reflexivity.
Qed.

(** The rule at work: dimacs and refine both set, the CNF dumper comes
    back. *)
Lemma get_solver_first_match_witness :
  get_solver Inputs.good Inputs.bound Inputs.dimacs_to_file
    = get_dimacs Inputs.dimacs_to_file
  /\ back_end_of
       (solvert_prop (bv_dimacst dimacs_cnft "out.cnf") dimacs_cnft)
     = Some DIMACS_DUMPER.
Proof.
  pose proof (get_solver_first_match Inputs.good Inputs.bound
                Inputs.dimacs_to_file) as (_ & Hfam & Hdimacs & _).
  split.
  - apply Hdimacs. reflexivity.
  - apply Hfam. reflexivity.
Defined.

(** C7, as worded: with none of dimacs, refine, refine-strings, smt2 set, the
    SAT back end would run the preprocessor exactly when beautify is off.
    It does not: beautify is off here and so is the preprocessor, because
    the sat-preprocessor option is off. *)
Lemma get_default_preprocessor_counterexample :
  get_bool_option (options Inputs.no_preprocessor) "dimacs" = false
  /\ get_bool_option (options Inputs.no_preprocessor) "refine" = false
  /\ get_bool_option (options Inputs.no_preprocessor) "refine-strings" = false
  /\ get_bool_option (options Inputs.no_preprocessor) "smt2" = false
  /\ get_bool_option (options Inputs.no_preprocessor) "beautify" = false
  /\ exists s,
       get_solver Inputs.good Inputs.bound Inputs.no_preprocessor = Ok s
       /\ has_sat_preprocessor s = false.
Proof.
  repeat (split; [reflexivity|]).
  eexists. split; reflexivity.
Qed.

(** C7, amended. With none of dimacs, refine, refine-strings, smt2 set,
    [get_solver] returns the default bit-vector solver over SAT, and its SAT
    back end runs the preprocessor if and only if beautify is not requested
    and the sat-preprocessor option is on. *)
Theorem get_default_preprocessor (good : string -> bool) (bound : Z)
    (f : solver_factoryt) :
  get_bool_option (options f) "dimacs" = false ->
  get_bool_option (options f) "refine" = false ->
  get_bool_option (options f) "refine-strings" = false ->
  get_bool_option (options f) "smt2" = false ->
  exists s,
    get_solver good bound f = Ok s
    /\ back_end_of s = Some DEFAULT_BV_SAT
    /\ (has_sat_preprocessor s = true <->
        get_bool_option (options f) "beautify" = false
        /\ get_bool_option (options f) "sat-preprocessor" = true).
Proof.
  intros Hd Hr Hs Hm.
  unfold get_solver. rewrite Hd, Hr, Hs, Hm.
  unfold get_default. eexists. split; [reflexivity|].
  split; [reflexivity|].
  unfold has_sat_preprocessor, solvert_prop; simpl.
  destruct (get_bool_option (options f) "beautify"),
    (get_bool_option (options f) "sat-preprocessor"); simpl;
    split; intros H; try discriminate; try (destruct H; discriminate);
    auto.
Qed.

Lemma get_default_preprocessor_witness :
  exists s,
    get_solver Inputs.good Inputs.bound Inputs.plain = Ok s
    /\ back_end_of s = Some DEFAULT_BV_SAT
    /\ (has_sat_preprocessor s = true <->
        get_bool_option (options Inputs.plain) "beautify" = false
        /\ get_bool_option (options Inputs.plain) "sat-preprocessor" = true).
Proof.
  apply (get_default_preprocessor Inputs.good Inputs.bound Inputs.plain);
    reflexivity.
Defined.

(** C8, as worded: with smt2 set, the generic solver family and no output
    file, [get_solver] would fail for the missing file name. Two runs where
    it does not: with dimacs set as well, the CNF dumper is built and a
    bundle comes back; with beautify set, the failure is the one about
    beautification. *)
Lemma get_smt2_missing_outfile_counterexample :
  (get_bool_option (options Inputs.dimacs_and_smt2) "smt2" = true
   /\ get_smt2_solver_type Inputs.dimacs_and_smt2 = Ok smt2_dect.GENERIC
   /\ get_option (options Inputs.dimacs_and_smt2) "outfile" = ""
   /\ get_solver Inputs.good Inputs.bound Inputs.dimacs_and_smt2
      = Ok (solvert_prop (bv_dimacst dimacs_cnft "") dimacs_cnft))
  /\ (get_bool_option (options Inputs.smt2_beautify) "smt2" = true
      /\ get_smt2_solver_type Inputs.smt2_beautify = Ok smt2_dect.GENERIC
      /\ get_option (options Inputs.smt2_beautify) "outfile" = ""
      /\ get_solver Inputs.good Inputs.bound Inputs.smt2_beautify
         = Throw (invalid_command_line_argument_exceptiont
                    "the chosen solver does not support beautification"
                    "--beautify" "")).
Proof. repeat split. Qed.

(** C8, amended. When smt2 is set and none of dimacs, refine,
    refine-strings (which are looked at first) and beautify is, the solver
    family is generic and the outfile option is empty, [get_solver] throws
    the invalid-command-line-argument exception that says the required file
    name was not provided; no bundle is returned. *)
Theorem get_smt2_missing_outfile (good : string -> bool) (bound : Z)
    (f : solver_factoryt) :
  get_bool_option (options f) "dimacs" = false ->
  get_bool_option (options f) "refine" = false ->
  get_bool_option (options f) "refine-strings" = false ->
  get_bool_option (options f) "smt2" = true ->
  get_bool_option (options f) "beautify" = false ->
  get_smt2_solver_type f = Ok smt2_dect.GENERIC ->
  get_option (options f) "outfile" = "" ->
  get_solver good bound f
  = Throw (invalid_command_line_argument_exceptiont
             "required filename not provided"
             "--outfile"
             "provide a filename with --outfile").
Proof.
  intros Hd Hr Hs Hm Hb Hg Hf.
  unfold get_solver. rewrite Hd, Hr, Hs, Hm, Hg. simpl.
  unfold get_smt2. rewrite (no_beautification_Ok f Hb). simpl.
  rewrite Hf. reflexivity.
Qed.

Lemma get_smt2_missing_outfile_witness :
  get_solver Inputs.good Inputs.bound Inputs.smt2_only
  = Throw (invalid_command_line_argument_exceptiont
             "required filename not provided"
             "--outfile"
             "provide a filename with --outfile").
Proof.
  apply (get_smt2_missing_outfile Inputs.good Inputs.bound Inputs.smt2_only);
    reflexivity.
Defined.

(** C9. With dimacs set, [get_solver] throws an
    invalid-command-line-argument exception when beautify is set or when
    all-properties, cover or incremental-check is; otherwise it returns the
    CNF dumper bundle. A CNF dumper therefore comes back only when dimacs is
    set and none of the four is. *)
Theorem get_dimacs_rejects (good : string -> bool) (bound : Z)
    (f : solver_factoryt) :
  (get_bool_option (options f) "dimacs" = true ->
   dimacs_refuses (options f) = true ->
   exists reason option,
     get_solver good bound f
     = Throw (invalid_command_line_argument_exceptiont reason option ""))
  /\ (get_bool_option (options f) "dimacs" = true ->
      dimacs_refuses (options f) = false ->
      get_solver good bound f
      = Ok (solvert_prop
              (bv_dimacst dimacs_cnft (get_option (options f) "outfile"))
              dimacs_cnft))
  /\ (forall s,
        get_solver good bound f = Ok s ->
        back_end_of s = Some DIMACS_DUMPER ->
        get_bool_option (options f) "dimacs" = true
        /\ dimacs_refuses (options f) = false).
Proof.
  assert (Hthrow : dimacs_refuses (options f) = true ->
            exists reason option,
              get_dimacs f
              = Throw (invalid_command_line_argument_exceptiont
                         reason option "")).
  { unfold dimacs_refuses, get_dimacs, no_beautification,
      no_incremental_check.
    destruct (get_bool_option (options f) "beautify"); simpl;
      [intros _; eauto|].
    destruct (get_bool_option (options f) "all-properties"); simpl;
      [intros _; eauto|].
    destruct (is_set (options f) "cover"); simpl; [intros _; eauto|].
    destruct (is_set (options f) "incremental-check"); simpl;
      [intros _; eauto|].
    discriminate. }
  assert (Hok : dimacs_refuses (options f) = false ->
            get_dimacs f
            = Ok (solvert_prop
                    (bv_dimacst dimacs_cnft
                       (get_option (options f) "outfile"))
                    dimacs_cnft)).
  { unfold dimacs_refuses. intros H.
    apply orb_false_iff in H as [H Hi].
    apply orb_false_iff in H as [H Hc].
    apply orb_false_iff in H as [Hb Ha].
    unfold get_dimacs.
    rewrite (no_beautification_Ok f Hb),
      (no_incremental_check_Ok f Ha Hc Hi).
    reflexivity. }
  split; [|split].
  - intros Hd Hr. unfold get_solver. rewrite Hd. auto.
  - intros Hd Hr. unfold get_solver. rewrite Hd. auto.
  - intros s Hs Hb.
    rewrite get_solver_construct in Hs.
    pose proof (construct_back_end good bound f _ s Hs) as Hfam.
    rewrite Hb in Hfam. injection Hfam as Hfam.
    assert (Hd : get_bool_option (options f) "dimacs" = true).
    { revert Hfam. unfold first_match.
      repeat (destruct (get_bool_option _ _); try discriminate).
      reflexivity. }
    split; [exact Hd|].
    rewrite <- Hfam in Hs. simpl in Hs.
    destruct (dimacs_refuses (options f)) eqn:Hr; [|reflexivity].
    destruct (Hthrow eq_refl) as (r & op & Ht).
    rewrite Ht in Hs. discriminate.
Qed.

Lemma get_dimacs_rejects_witness :
  get_solver Inputs.good Inputs.bound Inputs.dimacs_to_file
  = Ok (solvert_prop (bv_dimacst dimacs_cnft "out.cnf") dimacs_cnft).
Proof.
  pose proof (get_dimacs_rejects Inputs.good Inputs.bound
                Inputs.dimacs_to_file) as (_ & Hok & _).
  apply Hok; reflexivity.
Defined.

End SolverFactoryFacts.

(** ** The symbolic execution core *)

Module SymexFacts.
Import Symex.

Section Transition.
Context {E : externals}.

Lemma call_stack_set_top (s : statet) (fr frame : framet.t)
    (rest : list framet.t) :
  call_stack s = frame :: rest ->
  call_stack (set_top fr s) = fr :: rest.
Proof.
  unfold call_stack, set_top. simpl.
  rewrite list_lookup_alter_eq.
  destruct (threads s !! _) as [t|]; simpl; [|discriminate].
  intros ->. reflexivity.
Qed.

Lemma reset_count_zero (id : loop_idt) (fr : framet.t) :
  loop_infot.count <$> (framet.loop_iterations (reset_count id fr) !! id)
  = Some 0.
Proof. unfold reset_count. simpl. rewrite lookup_insert_eq. reflexivity. Qed.

Lemma reset_count_keeps_zero (id id' : loop_idt) (fr : framet.t) :
  loop_infot.count <$> (framet.loop_iterations fr !! id') = Some 0 ->
  loop_infot.count <$> (framet.loop_iterations (reset_count id fr) !! id')
  = Some 0.
Proof.
  intros H. destruct (decide (id = id')) as [->|Hne].
  - apply reset_count_zero.
  - unfold reset_count. simpl. rewrite lookup_insert_ne; assumption.
Qed.

(** The loop over the incoming edges leaves at zero every counter it has
    put to zero, and puts to zero the counter of each edge that passes the
    test. *)
Lemma edges_loop_zero (test : targett -> bool) (name : targett -> loop_idt)
    (edges : list targett) (id : loop_idt) (fr : framet.t) :
  loop_infot.count <$> (framet.loop_iterations fr !! id) = Some 0
  \/ (exists i_e, i_e ∈ edges /\ test i_e = true /\ name i_e = id) ->
  loop_infot.count
    <$> (framet.loop_iterations
           (foldl (fun fr i_e =>
                     if test i_e then reset_count (name i_e) fr else fr)
              fr edges) !! id)
  = Some 0.
Proof.
  revert fr. induction edges as [|e edges IH]; intros fr H; simpl.
  - destruct H as [H|(i_e & Hin & _)]; [exact H|].
    apply elem_of_nil in Hin. contradiction.
  - apply IH. destruct H as [H|(i_e & Hin & Ht & Hn)].
    + left. destruct (test e); [apply reset_count_keeps_zero|]; exact H.
    + apply elem_of_cons in Hin as [->|Hin].
      * left. rewrite Ht, Hn. apply reset_count_zero.
      * right. eauto.
Qed.

Lemma symex_transition_pc (s : statet) (to : targett) (b : bool) :
  sourcet.pc (source (symex_transition s to b)) = to.
Proof. reflexivity. Qed.

End Transition.

(** C5, as worded: a backwards goto that arrives from the very location of
    the loop's own back edge (equal, not deeper) would put the counter of
    that loop back to zero. Standing on the backwards goto at location 2
    and taking it to the loop head, the counter stays at 3. *)
Lemma symex_transition_equal_location_counterexample :
  2 ∈ instructiont.incoming_edges (SymexInputs.program 0)
  /\ instructiont.is_goto (SymexInputs.program 2) = true
  /\ instructiont.is_backwards_goto (SymexInputs.program 2) = true
  /\ instructiont.location_number
       (SymexInputs.program (sourcet.pc (source SymexInputs.on_back_edge)))
     >= instructiont.location_number (SymexInputs.program 2)
  /\ exists frame',
       call_stack
         (symex_transition (E := SymexInputs.ext)
            SymexInputs.on_back_edge 0 true)
       = [frame']
       /\ loop_infot.count
            <$> (framet.loop_iterations frame'
                   !! loop_id "main" (SymexInputs.program 2))
          = Some 3.
Proof.
  split; [apply list_elem_of_here|].
  do 2 (split; [reflexivity|]).
  split; [simpl; lia|].
  eexists. split; reflexivity.
Qed.

(** C5, amended. On a transition of the program counter to an instruction
    with an incoming backwards-goto edge, with a frame on the call stack,
    the iteration counter of that loop in the top frame is zero afterwards
    whenever the transition is not a backwards goto, or is one that arrives
    from a location strictly deeper than the source of that edge. *)
Theorem symex_transition_resets_loop_counter {E : externals}
    (s : statet) (to : targett) (is_backwards_goto : bool)
    (i_e : targett) (frame : framet.t) (rest : list framet.t) :
  call_stack s = frame :: rest ->
  i_e ∈ instructiont.incoming_edges (instruction_at to) ->
  instructiont.is_goto (instruction_at i_e) = true ->
  instructiont.is_backwards_goto (instruction_at i_e) = true ->
  is_backwards_goto = false
  \/ instructiont.location_number (instruction_at (sourcet.pc (source s)))
     > instructiont.location_number (instruction_at i_e) ->
  exists frame',
    call_stack (symex_transition s to is_backwards_goto) = frame' :: rest
    /\ loop_infot.count
         <$> (framet.loop_iterations frame'
                !! loop_id (sourcet.function_id (source s))
                     (instruction_at i_e))
       = Some 0
    /\ sourcet.pc (source (symex_transition s to is_backwards_goto)) = to.
Proof.
  intros Hstack Hin Hgoto Hback Henter.
  assert (Htest : enters_loop s is_backwards_goto i_e = true).
  { unfold enters_loop. rewrite Hgoto, Hback. simpl.
    destruct Henter as [->|Hgt]; [reflexivity|].
    apply orb_true_iff. right. apply Z.gtb_gt. exact Hgt. }
  unfold symex_transition. rewrite Hstack.
  eexists. split; [|split].
  - change (call_stack (set_pc to ?x)) with (call_stack x).
    eapply call_stack_set_top. exact Hstack.
  - apply (edges_loop_zero (enters_loop s is_backwards_goto)
             (fun i_e => loop_id (sourcet.function_id (source s))
                           (instruction_at i_e))).
    right. eauto.
  - reflexivity.
Qed.

(** The same backwards goto, taken from the deeper location 3. *)
Lemma symex_transition_resets_loop_counter_witness :
  exists frame',
    call_stack
      (symex_transition (E := SymexInputs.ext)
         (set_pc 3 SymexInputs.on_back_edge) 0 true)
    = frame' :: []
    /\ loop_infot.count
         <$> (framet.loop_iterations frame'
                !! loop_id "main" (SymexInputs.program 2))
       = Some 0
    /\ sourcet.pc
         (source
            (symex_transition (E := SymexInputs.ext)
               (set_pc 3 SymexInputs.on_back_edge) 0 true))
       = 0.
Proof.
  apply (symex_transition_resets_loop_counter (E := SymexInputs.ext)
           (set_pc 3 SymexInputs.on_back_edge) 0 true 2
           SymexInputs.frame3 []).
  - reflexivity.
  - apply list_elem_of_here.
  - reflexivity.
  - reflexivity.
  - right. simpl. lia.
Defined.

Section Threads.
Context {E : externals}.

(** A transition rewrites at most the call stack of the active thread. *)
Lemma symex_transition_threads (s : statet) (to : targett) (b : bool) :
  exists g,
    threads (symex_transition s to b)
    = alter (fun t => set_t_call_stack (g t) t)
        (Z.to_nat (sourcet.thread_nr (source s))) (threads s).
Proof.
  unfold symex_transition.
  destruct (call_stack s) as [|frame rest].
  - exists t_call_stack. simpl. symmetry. apply list_alter_id.
    intros []. reflexivity.
  - eexists (fun t => _ :: tail (t_call_stack t)). reflexivity.
Qed.

Lemma symex_transition_frame (s : statet) (to : targett) (b : bool) :
  guard (symex_transition s to b) = guard s
  /\ atomic_section_id (symex_transition s to b) = atomic_section_id s
  /\ sourcet.thread_nr (source (symex_transition s to b))
     = sourcet.thread_nr (source s).
Proof.
  unfold symex_transition.
  destruct (call_stack s); repeat split.
Qed.

(** Rewriting call stacks leaves the other fields of the thread records. *)
Lemma lookup_alter_call_stack {A : Type} (proj : threadt -> A)
    (g : threadt -> list framet.t) (n i : nat) (l : list threadt) :
  (forall t v, proj (set_t_call_stack v t) = proj t) ->
  proj <$> (alter (fun t => set_t_call_stack (g t) t) n l !! i)
  = proj <$> (l !! i).
Proof.
  intros Hproj. destruct (decide (n = i)) as [->|Hne].
  - rewrite list_lookup_alter_eq. destruct (l !! i); simpl; [|reflexivity].
    f_equal. apply Hproj.
  - rewrite list_lookup_alter_ne by assumption. reflexivity.
Qed.

(** [switch_to_thread] within its preconditions. *)
Lemma switch_to_thread_Ok (s : statet) (thread_nb : Z) :
  0 <= sourcet.thread_nr (source s) < Z.of_nat (length (threads s)) ->
  0 <= thread_nb < Z.of_nat (length (threads s)) ->
  exists t,
    alter (fun t => set_t_atomic_section_id (atomic_section_id s)
                      (set_t_pc (sourcet.pc (source s)) t))
      (Z.to_nat (sourcet.thread_nr (source s))) (threads s)
    !! Z.to_nat thread_nb = Some t
    /\ switch_to_thread s thread_nb
       = Ok (mk_state (depth s) (t_guard t)
               (sourcet.mk (sourcet.function_id (source s)) (t_pc t)
                  thread_nb)
               (alter (fun t => set_t_atomic_section_id (atomic_section_id s)
                                  (set_t_pc (sourcet.pc (source s)) t))
                  (Z.to_nat (sourcet.thread_nr (source s))) (threads s))
               (atomic_section_id s) (total_vccs s) (remaining_vccs s)
               (opaque s)).
Proof.
  intros Hnr Hnb. unfold switch_to_thread.
  destruct (Z.ltb_spec (sourcet.thread_nr (source s))
              (Z.of_nat (length (threads s)))); [|lia].
  destruct (Z.ltb_spec thread_nb (Z.of_nat (length (threads s)))); [|lia].
  simpl.
  destruct (lookup_lt_is_Some_2
              (alter (fun t => set_t_atomic_section_id (atomic_section_id s)
                                 (set_t_pc (sourcet.pc (source s)) t))
                 (Z.to_nat (sourcet.thread_nr (source s))) (threads s))
              (Z.to_nat thread_nb)) as [t Ht].
  { rewrite length_alter. lia. }
  exists t. rewrite Ht. split; reflexivity.
Qed.

End Threads.

(** C4. The last instruction of thread 0, with the atomic-section id of
    the state at 7 and a second thread waiting at 6 under [b] with id 0 in
    its record. After the step control is on thread 1 with its pc and its
    guard, and the pc and the id of thread 0 have been saved in its record;
    but the id of the state is still 7, not the 0 of the incoming thread:
    [switch_to_thread] saves the atomic-section id and never loads it. *)
Theorem symex_threaded_step_keeps_atomic_section_id :
  exists w2 : @worldt SymexInputs.ext,
    symex_threaded_step (C := SymexInputs.col)
      (SymexInputs.last_instruction false) = Ok w2
    /\ sourcet.thread_nr (source (state w2)) = 1
    /\ sourcet.pc (source (state w2)) = 6
    /\ guard (state w2) = [symbol_exprt "b"]
    /\ @t_pc SymexInputs.ext <$> (threads (state w2) !! 0%nat) = Some 5
    /\ @t_atomic_section_id SymexInputs.ext <$> (threads (state w2) !! 0%nat)
       = Some 7
    /\ @t_atomic_section_id SymexInputs.ext <$> (threads (state w2) !! 1%nat)
       = Some 0
    /\ atomic_section_id (state w2) = 7.
Proof.
  eexists. split; [reflexivity|]. repeat split.
Qed.

(** What a thread switch does, for any state: after a step that has not
    paused symex and leaves the call stack of a thread empty while the next
    thread exists, the pc and the atomic-section id of the outgoing thread
    are in its record, the pc and the guard of the incoming thread are in
    the state, and the atomic-section id of the state is the one it had. *)
Theorem symex_threaded_step_switches {E : externals} {C : collaborators}
    (w w1 : worldt) :
  symex_step w = Ok w1 ->
  should_pause_symex (this w1) = false ->
  call_stack (state w1) = [] ->
  0 <= sourcet.thread_nr (source (state w1)) ->
  sourcet.thread_nr (source (state w1)) + 1
  < Z.of_nat (length (threads (state w1))) ->
  Z.of_nat (length (threads (state w1))) <= 2 ^ 32 ->
  exists w2,
    symex_threaded_step w = Ok w2
    /\ sourcet.thread_nr (source (state w2))
       = sourcet.thread_nr (source (state w1)) + 1
    /\ t_pc <$> (threads (state w2)
                   !! Z.to_nat (sourcet.thread_nr (source (state w1))))
       = Some (sourcet.pc (source (state w1)))
    /\ t_atomic_section_id
         <$> (threads (state w2)
                !! Z.to_nat (sourcet.thread_nr (source (state w1))))
       = Some (atomic_section_id (state w1))
    /\ t_pc <$> (threads (state w1)
                   !! Z.to_nat (sourcet.thread_nr (source (state w1)) + 1))
       = Some (sourcet.pc (source (state w2)))
    /\ t_guard <$> (threads (state w1)
                      !! Z.to_nat (sourcet.thread_nr (source (state w1)) + 1))
       = Some (guard (state w2))
    /\ atomic_section_id (state w2) = atomic_section_id (state w1).
Proof.
  intros Hstep Hpause Hstack Hnr Hnext Hsize.
  unfold symex_threaded_step. rewrite Hstep. simpl.
  destruct w1 as [x s1]. simpl in *. rewrite Hpause, Hstack.
  set (old := sourcet.thread_nr (source s1)) in *.
  assert (Hwrap : wrap32 (old + 1) = old + 1).
  { unfold wrap32. apply Z.mod_small. lia. }
  rewrite Hwrap.
  destruct (Z.ltb_spec (old + 1) (Z.of_nat (length (threads s1)))); [|lia].
  simpl.
  destruct (switch_to_thread_Ok s1 (old + 1)) as (t & Ht & Hswitch);
    [fold old; lia | lia |].
  fold old in Ht, Hswitch. rewrite Hswitch. simpl.
  rewrite list_lookup_alter_ne in Ht by lia.
  match goal with
  | |- context [symex_transition ?s ?to ?b] =>
      destruct (symex_transition_frame s to b) as (Hg & Ha & Hn);
      destruct (symex_transition_threads s to b) as (g & Hthreads);
      pose proof (symex_transition_pc s to b) as Hpc;
      remember (symex_transition s to b) as s2 eqn:Hs2; clear Hs2
  end.
  simpl in Hg, Ha, Hn, Hthreads.
  eexists. split; [reflexivity|]. cbn [state].
  rewrite Hg, Ha, Hn, Hpc, Hthreads, Ht.
  assert (Hold : is_Some (threads s1 !! Z.to_nat old)).
  { apply lookup_lt_is_Some_2. lia. }
  destruct Hold as [told Hold].
  repeat split.
  - rewrite lookup_alter_call_stack by reflexivity.
    rewrite list_lookup_alter_eq, Hold. reflexivity.
  - rewrite lookup_alter_call_stack by reflexivity.
    rewrite list_lookup_alter_eq, Hold. reflexivity.
Qed.

(** The last instruction of thread 0, symex not paused. *)
Lemma symex_threaded_step_switches_witness :
  exists w2 : @worldt SymexInputs.ext,
    symex_threaded_step (C := SymexInputs.col)
      (SymexInputs.last_instruction false) = Ok w2
    /\ sourcet.thread_nr (source (state w2)) = 0 + 1
    /\ @t_pc SymexInputs.ext <$> (threads (state w2) !! Z.to_nat 0) = Some 5
    /\ @t_atomic_section_id SymexInputs.ext <$> (threads (state w2) !! Z.to_nat 0) = Some 7
    /\ Some 6 = Some (sourcet.pc (source (state w2)))
    /\ Some [symbol_exprt "b"] = Some (guard (state w2))
    /\ atomic_section_id (state w2) = 7.
Proof.
  destruct (symex_step (C := SymexInputs.col)
              (SymexInputs.last_instruction false)) as [w1| |] eqn:Hstep;
    [|discriminate Hstep|discriminate Hstep].
  injection Hstep as <-.
  apply (symex_threaded_step_switches (C := SymexInputs.col)
           (SymexInputs.last_instruction false) _ eq_refl);
    [reflexivity | reflexivity | simpl; lia | simpl; lia | simpl; lia].
Defined.

Section Assume.
Context {E : externals} {C : collaborators}.

Lemma symex_assume_unfold (w : worldt) (cond : exprt) :
  is_true (do_simplify cond) = false ->
  symex_assume w cond
  = end_atomic_if_infeasible (assume_record (do_simplify cond) w).
Proof. unfold symex_assume. intros ->. reflexivity. Qed.

End Assume.

(** C2, as worded: with one thread, the assumption step appended would be
    the pair of the guard and the condition. Under the path condition [a],
    assuming [b] appends the step with guard [a] and condition [a => b],
    not [b]. *)
Lemma symex_assume_step_counterexample :
  length (threads (state (SymexInputs.single 1))) = 1%nat
  /\ is_true (do_simplify (collaborators := SymexInputs.col)
                (symbol_exprt "b")) = false
  /\ exists w' : @worldt SymexInputs.ext,
       symex_assume (C := SymexInputs.col) (SymexInputs.single 1)
         (symbol_exprt "b") = Ok w'
       /\ target (this w')
          = (target (this (SymexInputs.single 1))
             ++ [assumption (symbol_exprt "a")
                   (implies_exprt (symbol_exprt "a") (symbol_exprt "b"))
                   (sourcet.mk "main" 1 0)])%list
       /\ target (this w')
          <> (target (this (SymexInputs.single 1))
              ++ [assumption (symbol_exprt "a") (symbol_exprt "b")
                    (sourcet.mk "main" 1 0)])%list.
Proof.
  split; [reflexivity|]. split; [reflexivity|].
  eexists. split; [reflexivity|]. split; [reflexivity|].
  simpl. intros H. discriminate H.
Qed.

(** C2, amended. For an assume whose condition does not simplify to true:
    with exactly one thread, [symex_assume] appends to the equation an
    assumption step whose guard is the guard of the state and whose
    condition is the simplified condition wrapped by the guard
    ([guard_expr]: guard implies condition), and leaves the state as it is;
    with more than one thread it conjoins the simplified condition into the
    guard of the state and appends no assumption step. Either way the
    atomic section is then ended if the guard is false inside one;
    outside atomic sections that is all. *)
Theorem symex_assume_records {E : externals} {C : collaborators}
    (w : worldt) (cond : exprt) :
  is_true (do_simplify cond) = false ->
  (length (threads (state w)) = 1%nat ->
   exists w1,
     symex_assume w cond = end_atomic_if_infeasible w1
     /\ target (this w1)
        = (target (this w)
           ++ [assumption (guard_as_expr (guard (state w)))
                 (guard_expr (guard (state w)) (do_simplify cond))
                 (source (state w))])%list
     /\ state w1 = state w
     /\ (atomic_section_id (state w) = 0 -> symex_assume w cond = Ok w1))
  /\ ((1 < length (threads (state w)))%nat ->
      exists w1,
        symex_assume w cond = end_atomic_if_infeasible w1
        /\ target (this w1) = target (this w)
        /\ guard (state w1) = guard_add (guard (state w)) (do_simplify cond)
        /\ (atomic_section_id (state w) = 0 ->
            symex_assume w cond = Ok w1)).
Proof.
  intros Hcond. rewrite (symex_assume_unfold w cond Hcond).
  unfold assume_record. split; intros Hlen.
  - exists (emit (assumption (guard_as_expr (guard (state w)))
                    (guard_expr (guard (state w)) (do_simplify cond))
                    (source (state w))) w).
    destruct (decide (length (threads (state w)) = 1%nat)); [|lia].
    repeat split.
    intros Hid. unfold end_atomic_if_infeasible. simpl. rewrite Hid.
    reflexivity.
  - exists (with_state
              (fun s => set_guard (guard_add (guard s) (do_simplify cond)) s)
              w).
    destruct (decide (length (threads (state w)) = 1%nat)); [lia|].
    repeat split.
    intros Hid. unfold end_atomic_if_infeasible. simpl. rewrite Hid.
    reflexivity.
Qed.

(** One thread under [a], assuming [b]. *)
Lemma symex_assume_records_witness :
  exists w1 : @worldt SymexInputs.ext,
    symex_assume (C := SymexInputs.col) (SymexInputs.single 1)
      (symbol_exprt "b")
    = end_atomic_if_infeasible (C := SymexInputs.col) w1
    /\ target (this w1)
       = ([] ++ [assumption (symbol_exprt "a")
                   (implies_exprt (symbol_exprt "a") (symbol_exprt "b"))
                   (sourcet.mk "main" 1 0)])%list
    /\ state w1 = state (SymexInputs.single 1)
    /\ (0 = 0 ->
        symex_assume (C := SymexInputs.col) (SymexInputs.single 1)
          (symbol_exprt "b") = Ok w1).
Proof.
  pose proof (symex_assume_records (C := SymexInputs.col)
                (SymexInputs.single 1) (symbol_exprt "b") eq_refl)
    as [Hsingle _].
  apply Hsingle. reflexivity.
Defined.

(** C10. When the processing of an assume leaves the state with a false
    guard inside an atomic section, [symex_assume] hands the state to
    [symex_atomic_end]; with an atomic end that puts the id back to zero,
    [symex_assume] returns, and a state on which a false guard goes with
    atomic-section id zero is left as such a state. *)
Theorem symex_assume_ends_atomic_section {E : externals}
    {C : collaborators} (w : worldt) (cond : exprt) :
  atomic_end_resets ->
  (is_true (do_simplify cond) = false ->
   atomic_section_id (state (assume_record (do_simplify cond) w)) <> 0 ->
   guard_is_false (guard (state (assume_record (do_simplify cond) w)))
   = true ->
   symex_assume w cond
   = symex_atomic_end (assume_record (do_simplify cond) w))
  /\ (infeasible_outside_atomic w ->
      exists w',
        symex_assume w cond = Ok w' /\ infeasible_outside_atomic w').
Proof.
  intros Hend. split.
  - intros Hcond Hid Hfalse. rewrite (symex_assume_unfold w cond Hcond).
    unfold end_atomic_if_infeasible. rewrite Hfalse.
    destruct (Z.eqb_spec
                (atomic_section_id
                   (state (assume_record (do_simplify cond) w))) 0);
      [contradiction|reflexivity].
  - intros Hinv. unfold symex_assume.
    destruct (is_true (do_simplify cond)); [eauto|].
    set (w1 := assume_record (do_simplify cond) w).
    destruct (Z.eqb_spec (atomic_section_id (state w1)) 0) as [Hz|Hnz];
      simpl.
    + exists w1. split; [reflexivity|]. intros _. exact Hz.
    + destruct (guard_is_false (guard (state w1))) eqn:Hfalse.
      * destruct (Hend w1 Hnz) as (w' & Hw' & Hid).
        exists w'. split; [exact Hw'|]. intros _. exact Hid.
      * exists w1. split; [reflexivity|].
        unfold infeasible_outside_atomic. rewrite Hfalse. discriminate.
Qed.

(** Two threads, thread 0 inside atomic section 3 under [a], assuming
    false: the guard collapses and the atomic section is ended. *)
Lemma symex_assume_ends_atomic_section_witness :
  exists w' : @worldt SymexInputs.ext,
    symex_assume (C := SymexInputs.col) SymexInputs.two_threads_atomic
      false_exprt = Ok w'
    /\ infeasible_outside_atomic w'.
Proof.
  pose proof (symex_assume_ends_atomic_section (C := SymexInputs.col)
                SymexInputs.two_threads_atomic false_exprt) as H.
  destruct H as [_ Hinv].
  - intros v _. eexists. split; reflexivity.
  - apply Hinv. intros Hfalse. discriminate Hfalse.
Defined.

(** Induction over expression trees, operands included. *)
Lemma exprt_induction (P : exprt -> Prop) :
  P nil_exprt -> P true_exprt -> P false_exprt ->
  (forall x, P (symbol_exprt x)) ->
  (forall a, P a -> P (not_exprt a)) ->
  (forall a b, P a -> P b -> P (implies_exprt a b)) ->
  (forall l, Forall P l -> P (and_exprt l)) ->
  (forall l, Forall P l -> P (or_exprt l)) ->
  (forall x a, P a -> P (forall_exprt x a)) ->
  (forall x a, P a -> P (exists_exprt x a)) ->
  (forall i l, Forall P l -> P (other_exprt i l)) ->
  forall e, P e.
Proof.
  intros Hnil Htrue Hfalse Hsym Hnot Himp Hand Hor Hall Hex Hother.
  fix IH 1.
  intros [ | | | x | a | a b | l | l | x a | x a | i l].
  - exact Hnil.
  - exact Htrue.
  - exact Hfalse.
  - apply Hsym.
  - apply Hnot, IH.
  - apply Himp; apply IH.
  - apply Hand. revert l. fix IHl 1.
    intros [|x l]; constructor; [apply IH | apply IHl].
  - apply Hor. revert l. fix IHl 1.
    intros [|x l]; constructor; [apply IH | apply IHl].
  - apply Hall, IH.
  - apply Hex, IH.
  - apply Hother. revert l. fix IHl 1.
    intros [|x l]; constructor; [apply IH | apply IHl].
Qed.

Section Vcc.
Context {E : externals} {C : collaborators}.

Lemma same_path_refl (v : worldt) : same_path v v.
Proof. repeat split. Qed.

Lemma same_path_trans (u v w : worldt) :
  same_path u v -> same_path v w -> same_path u w.
Proof.
  unfold same_path. intros (H1 & H2 & H3 & H4) (K1 & K2 & K3 & K4).
  repeat split; congruence.
Qed.

Lemma rewrite_operands_same_path (l : list exprt) :
  Forall (fun e => forall w e' w',
            rewrite_quantifiers e w = Ok (e', w') -> same_path w w') l ->
  forall w l' w',
    rewrite_operands rewrite_quantifiers l w = Ok (l', w') ->
    same_path w w'.
Proof.
  induction 1 as [|e l He Hl IH]; intros w l' w'; simpl.
  - intros [= _ <-]. apply same_path_refl.
  - destruct (rewrite_quantifiers e w) as [[e1 w1]| |] eqn:H1;
      simpl; try discriminate.
    destruct (rewrite_operands rewrite_quantifiers l w1)
      as [[l2 w2]| |] eqn:H2; simpl; try discriminate.
    intros [= _ <-].
    eapply same_path_trans; [eapply He; exact H1 | eapply IH; exact H2].
Qed.

(** Rewriting quantifiers stays on the path position when declarations
    do. *)
Lemma rewrite_quantifiers_same_path :
  decl_keeps_path ->
  forall e w e' w',
    rewrite_quantifiers e w = Ok (e', w') -> same_path w w'.
Proof.
  intros Hdecl e.
  induction e using exprt_induction; intros w e' w';
    try (simpl; intros [= _ <-]; apply same_path_refl).
  - simpl.
    destruct (rewrite_operands rewrite_quantifiers l w)
      as [[l1 w1]| |] eqn:H1; simpl; try discriminate.
    intros [= _ <-]. eapply rewrite_operands_same_path; eassumption.
  - simpl.
    destruct (rewrite_operands rewrite_quantifiers l w)
      as [[l1 w1]| |] eqn:H1; simpl; try discriminate.
    intros [= _ <-]. eapply rewrite_operands_same_path; eassumption.
  - simpl.
    destruct (symex_decl_symbol w (get_original_expr x))
      as [w1| |] eqn:H1; simpl; try discriminate.
    intros H2. eapply same_path_trans; [eapply Hdecl; exact H1|].
    eapply IHe; exact H2.
Qed.

Lemma vcc_quantifiers_same_path :
  decl_keeps_path ->
  forall e w e' w',
    vcc_quantifiers e w = Ok (e', w') -> same_path w w'.
Proof.
  intros Hdecl e w e' w'. unfold vcc_quantifiers.
  destruct (has_subexpr e ID_exists || has_subexpr e ID_forall).
  - apply rewrite_quantifiers_same_path. exact Hdecl.
  - intros [= _ <-]. apply same_path_refl.
Qed.

End Vcc.

(** C3, as worded: when the condition is literally true after renaming and
    simplification, no step at all would be emitted. Asserting
    [forall x. true] with the simplifier switched off: the quantifier is
    rewritten away, which declares [x] afresh; the condition left is
    literally true, no assertion is recorded and the remaining counter
    stays, but the declaration step is in the equation. *)
Lemma vcc_quantified_counterexample :
  exists (e1 : exprt) (w1 w' : @worldt SymexInputs.ext),
    vcc_quantifiers (C := SymexInputs.col)
      (forall_exprt "x" true_exprt) (vcc_count (SymexInputs.single 3))
    = Ok (e1, w1)
    /\ is_true (do_simplify (collaborators := SymexInputs.col)
                  (rename (collaborators := SymexInputs.col)
                     (state w1) e1)) = true
    /\ vcc (C := SymexInputs.col) (forall_exprt "x" true_exprt) "assertion"
         (SymexInputs.single 3) = Ok w'
    /\ total_vccs (state w') = 1
    /\ remaining_vccs (state w') = 0
    /\ target (this (SymexInputs.single 3)) = []
    /\ target (this w')
       = [other_step "decl" (symbol_exprt "a") [symbol_exprt "x"]
            (sourcet.mk "main" 3 0)].
Proof.
  do 3 eexists. split; [reflexivity|]. repeat split.
Qed.

(** C3, amended. [vcc] increments the total VCC counter. When the
    condition, after the rewriting of quantifiers, renaming and
    simplification, is literally true, the remaining counter is not
    incremented and no assertion step is emitted: [vcc] adds nothing to the
    equation left by the rewriting of quantifiers, which for a condition
    without quantifiers is the equation it started from. Otherwise the
    remaining counter is incremented and one assertion step is appended,
    with the guard, the condition under the guard (guard implies
    condition), the message and the source. The counters are [unsigned]
    and wrap. *)
Theorem vcc_counts_and_emits {E : externals} {C : collaborators}
    (w : worldt) (vcc_expr : exprt) (msg : string)
    (e1 : exprt) (w1 : worldt) :
  decl_keeps_path ->
  vcc_quantifiers vcc_expr (vcc_count w) = Ok (e1, w1) ->
  exists w',
    vcc vcc_expr msg w = Ok w'
    /\ total_vccs (state w') = wrap32 (total_vccs (state w) + 1)
    /\ (is_true (do_simplify (rename (state w1) e1)) = true ->
        remaining_vccs (state w') = remaining_vccs (state w)
        /\ target (this w') = target (this w1))
    /\ (is_true (do_simplify (rename (state w1) e1)) = false ->
        remaining_vccs (state w') = wrap32 (remaining_vccs (state w) + 1)
        /\ target (this w')
           = (target (this w1)
              ++ [assertion (guard_as_expr (guard (state w)))
                    (guard_expr (guard (state w))
                       (do_simplify (rename (state w1) e1)))
                    msg (source (state w))])%list)
    /\ (has_subexpr vcc_expr ID_exists || has_subexpr vcc_expr ID_forall
        = false ->
        e1 = vcc_expr /\ target (this w1) = target (this w)).
Proof.
  intros Hdecl Hq.
  destruct (vcc_quantifiers_same_path Hdecl _ _ _ _ Hq)
    as (Htotal & Hremaining & Hguard & Hsource).
  simpl in Htotal, Hremaining, Hguard, Hsource.
  unfold vcc. rewrite Hq. simpl.
  destruct (is_true (do_simplify (rename (state w1) e1))) eqn:Htrue.
  - exists w1. split; [reflexivity|]. split; [exact Htotal|].
    split; [intros _; split; [exact Hremaining|reflexivity]|].
    split; [discriminate|].
    intros Hfree. unfold vcc_quantifiers in Hq. rewrite Hfree in Hq.
    injection Hq as <- <-. split; reflexivity.
  - eexists. split; [reflexivity|]. simpl.
    split; [exact Htotal|].
    split; [discriminate|].
    split.
    + intros _. rewrite Hremaining, Hguard, Hsource. split; reflexivity.
    + intros Hfree. unfold vcc_quantifiers in Hq. rewrite Hfree in Hq.
      injection Hq as <- <-. split; reflexivity.
Qed.

(** One thread under [a], asserting [p]. *)
Lemma vcc_counts_and_emits_witness :
  exists w' : @worldt SymexInputs.ext,
    vcc (C := SymexInputs.col) (symbol_exprt "p") "assertion"
      (SymexInputs.single 3) = Ok w'
    /\ total_vccs (state w') = 1
    /\ remaining_vccs (state w') = 1
    /\ target (this w')
       = [assertion (symbol_exprt "a")
            (implies_exprt (symbol_exprt "a") (symbol_exprt "p"))
            "assertion" (sourcet.mk "main" 3 0)].
Proof.
  destruct (vcc_counts_and_emits (C := SymexInputs.col)
              (SymexInputs.single 3) (symbol_exprt "p") "assertion"
              (symbol_exprt "p") (vcc_count (SymexInputs.single 3)))
    as (w' & Hvcc & Htotal & _ & Hemit & _).
  - intros v x v' [= <-]. repeat split.
  - reflexivity.
  - exists w'. destruct (Hemit eq_refl) as [Hremaining Htarget].
    repeat split; assumption.
Defined.

Section Dispatch.
Context {E : externals} {C : collaborators}.

Lemma symex_step_unfold (w w1 : worldt) :
  threads (state w) <> [] ->
  call_stack (state w) <> [] ->
  symex_step_prologue w = Ok w1 ->
  symex_step w
  = dispatch (instruction_at (sourcet.pc (source (state w)))) w1.
Proof.
  intros Ht Hc Hp. unfold symex_step.
  destruct (threads (state w)); [contradiction|].
  destruct (call_stack (state w)); [contradiction|].
  rewrite Hp. reflexivity.
Qed.

(** On a false guard the ten guarded cases come down to the transition. *)
Lemma dispatch_tests_guard (i : instructiont.t) (w : worldt) :
  guard_is_false (guard (state w)) = true ->
  tests_guard (instructiont.type i) = true ->
  dispatch i w = transition w.
Proof.
  intros Hfalse. unfold dispatch. rewrite Hfalse.
  destruct (instructiont.type i); simpl; try discriminate; reflexivity.
Qed.


Lemma dispatch_goto (i : instructiont.t) (w : worldt) :
  instructiont.type i = GOTO -> dispatch i w = symex_goto w.
Proof. unfold dispatch. intros ->. reflexivity. Qed.

End Dispatch.






End SymexFacts.

(** * Further properties *)

(** ** The solver factory *)

Module SolverFactoryExtra.
Import SolverFactory SolverFactoryMore.

(** X1. [get_solver] never runs into a violated precondition: it returns a
    bundle or throws an invalid-command-line-argument exception; in
    particular [get_smt2_solver_type] is only asked with smt2 set. *)
Theorem get_solver_never_aborts (good : string -> bool) (bound : Z)
    (f : solver_factoryt) :
  (exists s, get_solver good bound f = Ok s)
  \/ (exists reason option correct_input,
        get_solver good bound f
        = Throw (invalid_command_line_argument_exceptiont
                   reason option correct_input)).
Proof.
  unfold get_solver.
  destruct (get_bool_option (options f) "dimacs").
  { unfold get_dimacs, no_beautification, no_incremental_check.
    destruct (get_bool_option (options f) "beautify"); simpl; [eauto 6|].
    destruct (get_bool_option (options f) "all-properties"); simpl;
      [eauto 6|].
    destruct (is_set (options f) "cover"); simpl; [eauto 6|].
    destruct (is_set (options f) "incremental-check"); simpl; eauto 6. }
  destruct (get_bool_option (options f) "refine").
  { unfold get_bv_refinement, no_beautification.
    destruct (get_bool_option (options f) "sat-preprocessor"); simpl;
      [|eauto].
    destruct (get_bool_option (options f) "beautify"); simpl; eauto 6. }
  destruct (get_bool_option (options f) "refine-strings").
  { unfold get_string_refinement. eauto. }
  destruct (get_bool_option (options f) "smt2") eqn:Hsmt2;
    [|unfold get_default; eauto].
  unfold get_smt2_solver_type. rewrite Hsmt2. simpl.
  unfold get_smt2, no_beautification.
  destruct (get_bool_option (options f) "beautify"); simpl; [eauto 6|].
  repeat case_decide.
  - match goal with |- context [match ?x with _ => _ end] => destruct x end;
      eauto 6.
  - eauto.
  - destruct (good _); simpl; eauto 6.
Qed.

(** X2. A bundle built while beautify is set never has the SAT
    preprocessor: the back ends that would run it refuse beautification,
    and the default one leaves it out. *)
Theorem beautify_excludes_preprocessor (good : string -> bool) (bound : Z)
    (f : solver_factoryt) (s : solvert) :
  get_bool_option (options f) "beautify" = true ->
  get_solver good bound f = Ok s ->
  has_sat_preprocessor s = false
  /\ (back_end_of s = Some DEFAULT_BV_SAT
      \/ back_end_of s = Some STRING_REFINEMENT
      \/ (back_end_of s = Some BV_REFINEMENT
          /\ get_bool_option (options f) "sat-preprocessor" = false)).
Proof.
  intros Hb. unfold get_solver.
  destruct (get_bool_option (options f) "dimacs").
  { unfold get_dimacs, no_beautification. rewrite Hb. discriminate. }
  destruct (get_bool_option (options f) "refine").
  { unfold get_bv_refinement, no_beautification. rewrite Hb.
    destruct (get_bool_option (options f) "sat-preprocessor"); simpl;
      [discriminate|].
    intros [= <-]. split; [reflexivity|]. right. right. split; reflexivity. }
  destruct (get_bool_option (options f) "refine-strings").
  { unfold get_string_refinement. intros [= <-]. split; [reflexivity|].
    right. left. reflexivity. }
  destruct (get_bool_option (options f) "smt2") eqn:Hsmt2.
  { unfold get_smt2_solver_type. rewrite Hsmt2. simpl.
    unfold get_smt2, no_beautification. rewrite Hb. discriminate. }
  unfold get_default. rewrite Hb. simpl. intros [= <-].
  split; [reflexivity|]. left. reflexivity.
Qed.

Lemma beautify_excludes_preprocessor_witness :
  exists s,
    get_solver Inputs.good Inputs.bound MoreInputs.beautify_default = Ok s
    /\ has_sat_preprocessor s = false.
Proof.
  destruct (get_solver Inputs.good Inputs.bound MoreInputs.beautify_default)
    as [s| |] eqn:Hs; [|discriminate Hs|discriminate Hs].
  exists s. split; [reflexivity|].
  apply (beautify_excludes_preprocessor Inputs.good Inputs.bound
           MoreInputs.beautify_default s eq_refl Hs).
Defined.

(** Every constructor puts a conversion layer into the bundle, and the SAT
    back end beside it is the one that layer was built on. *)
Lemma bundle_shape (good : string -> bool) (bound : Z)
    (f : solver_factoryt) (s : solvert) :
  get_solver good bound f = Ok s ->
  exists p,
    prop_conv_ptr s = Some p
    /\ prop_ptr s = prop_of p
    /\ (match back_end_of s with
        | Some DIMACS_DUMPER => time_limit_of p = None
        | _ => time_limit_of p = set_prop_conv_time_limit f
        end)
    /\ (back_end_of s = Some SMT2 ->
        smt2_logic_of p
        = Some ("QF_AUFBV", get_bool_option (options f) "fpa")
        /\ match smt2_out_of p with
           | None =>
               get_option (options f) "outfile" = ""
               /\ ofstream_ptr s = None
           | Some to_cout =>
               get_option (options f) "outfile" = "-"
               /\ ofstream_ptr s = None
           | Some (to_ofstream name) =>
               name = get_option (options f) "outfile"
               /\ name <> "" /\ name <> "-" /\ good name = true
               /\ ofstream_ptr s = Some name
           end).
Proof.
  unfold get_solver.
  destruct (get_bool_option (options f) "dimacs").
  { unfold get_dimacs.
    destruct (no_beautification f); simpl; try discriminate.
    destruct (no_incremental_check f); simpl; try discriminate.
    intros [= <-]. eexists. do 3 (split; [reflexivity|]).
    intros H. discriminate H. }
  destruct (get_bool_option (options f) "refine").
  { unfold get_bv_refinement.
    destruct (get_bool_option (options f) "sat-preprocessor"); simpl.
    - destruct (no_beautification f); simpl; try discriminate.
      intros [= <-]. eexists. do 3 (split; [reflexivity|]).
      intros H. discriminate H.
    - intros [= <-]. eexists. do 3 (split; [reflexivity|]).
      intros H. discriminate H. }
  destruct (get_bool_option (options f) "refine-strings").
  { unfold get_string_refinement. intros [= <-]. eexists.
    do 3 (split; [reflexivity|]). intros H. discriminate H. }
  destruct (get_bool_option (options f) "smt2") eqn:Hsmt2.
  2:{ unfold get_default. intros [= <-]. eexists.
      do 3 (split; [reflexivity|]). intros H. discriminate H. }
  unfold get_smt2_solver_type. rewrite Hsmt2. simpl.
  unfold get_smt2.
  destruct (no_beautification f); simpl; try discriminate.
  repeat case_decide.
  - match goal with |- context [match ?x with _ => _ end] => destruct x end;
      try discriminate; intros [= <-]; eexists;
      (do 3 (split; [reflexivity|])); intros _;
      (split; [reflexivity|]); simpl; (split; [assumption|reflexivity]).
  - intros [= <-]. eexists. do 3 (split; [reflexivity|]). intros _.
    split; [reflexivity|]. simpl. split; [assumption|reflexivity].
  - destruct (good _) eqn:Hgood; simpl; try discriminate.
    intros [= <-]. eexists. do 3 (split; [reflexivity|]). intros _.
    split; [reflexivity|]. simpl.
    split; [reflexivity|]. split; [assumption|]. split; [assumption|].
    split; [assumption|reflexivity].
Qed.

(** X3. On a bundle that [get_solver] returns, [prop_conv()] always
    succeeds. [prop()] hands out the SAT back end the conversion layer was
    built on; a bundle for SMT-LIB has none, and [prop()] aborts on it. *)
Theorem get_solver_bundle_accessors (good : string -> bool) (bound : Z)
    (f : solver_factoryt) (s : solvert) :
  get_solver good bound f = Ok s ->
  exists p,
    prop_conv s = Ok p
    /\ match prop_of p with
       | Some q => prop s = Ok q /\ back_end_of s <> Some SMT2
       | None =>
           prop s = Abort "prop_ptr != nullptr"
           /\ back_end_of s = Some SMT2
       end.
Proof.
  intros Hs. destruct (bundle_shape good bound f s Hs) as (p & Hp & Hq & _).
  exists p. unfold prop_conv, prop, back_end_of. rewrite Hp, Hq.
  split; [reflexivity|].
  destruct p; simpl; split; try reflexivity; discriminate.
Qed.

Lemma get_solver_bundle_accessors_witness :
  exists p,
    prop_conv (solvert1 (smt2_convt "QF_AUFBV" smt2_dect.Z3 to_cout true None))
    = Ok p
    /\ match prop_of p with
       | Some q =>
           prop (solvert1
                   (smt2_convt "QF_AUFBV" smt2_dect.Z3 to_cout true None))
           = Ok q
           /\ back_end_of
                (solvert1
                   (smt2_convt "QF_AUFBV" smt2_dect.Z3 to_cout true None))
              <> Some SMT2
       | None =>
           prop (solvert1
                   (smt2_convt "QF_AUFBV" smt2_dect.Z3 to_cout true None))
           = Abort "prop_ptr != nullptr"
           /\ back_end_of
                (solvert1
                   (smt2_convt "QF_AUFBV" smt2_dect.Z3 to_cout true None))
              = Some SMT2
       end.
Proof.
  apply (get_solver_bundle_accessors Inputs.good Inputs.bound
           MoreInputs.smt2_z3_stdout).
  reflexivity.
Defined.

(** X4. The conversion layer of a returned bundle has a time limit exactly
    when solver-time-limit is positive, and then that one; the CNF dumper
    never gets a time limit. *)
Theorem get_solver_time_limit (good : string -> bool) (bound : Z)
    (f : solver_factoryt) (s : solvert) (p : prop_convt) :
  get_solver good bound f = Ok s ->
  prop_conv s = Ok p ->
  (back_end_of s = Some DIMACS_DUMPER -> time_limit_of p = None)
  /\ (back_end_of s <> Some DIMACS_DUMPER ->
      forall t,
        time_limit_of p = Some t <->
        t = get_signed_int_option (options f) "solver-time-limit" /\ 0 < t).
Proof.
  intros Hs Hp.
  destruct (bundle_shape good bound f s Hs) as (p' & Hp' & _ & Ht & _).
  unfold prop_conv in Hp. rewrite Hp' in Hp. injection Hp as ->.
  split.
  - intros Hb. rewrite Hb in Ht. exact Ht.
  - intros Hb t.
    assert (Hl : time_limit_of p = set_prop_conv_time_limit f).
    { destruct (back_end_of s) as [[]|]; try exact Ht. contradiction. }
    rewrite Hl. unfold set_prop_conv_time_limit.
    destruct (Z.ltb_spec 0
                (get_signed_int_option (options f) "solver-time-limit")).
    + split; [intros [= <-]; split; [reflexivity|assumption]|].
      intros [-> _]. reflexivity.
    + split; [discriminate|]. intros [-> Hpos]. lia.
Qed.

Lemma get_solver_time_limit_witness :
  time_limit_of (bv_dimacst dimacs_cnft "out.cnf") = None.
Proof.
  destruct (get_solver_time_limit Inputs.good Inputs.bound
              Inputs.dimacs_to_file
              (solvert_prop (bv_dimacst dimacs_cnft "out.cnf") dimacs_cnft)
              (bv_dimacst dimacs_cnft "out.cnf") eq_refl eq_refl)
    as [Hdimacs _].
  apply Hdimacs. reflexivity.
Defined.

(** X5. An SMT-LIB bundle is always set to the logic QF_AUFBV, with the
    floating-point theory switched on exactly when fpa is; it writes to
    standard output for the outfile "-", owns a file stream exactly when
    the outfile is another non-empty name (which then opened), and is an
    in-process decision procedure when there is no outfile. *)
Theorem get_solver_smt2_bundle (good : string -> bool) (bound : Z)
    (f : solver_factoryt) (s : solvert) :
  get_solver good bound f = Ok s ->
  back_end_of s = Some SMT2 ->
  exists p,
    prop_conv s = Ok p
    /\ smt2_logic_of p = Some ("QF_AUFBV", get_bool_option (options f) "fpa")
    /\ match smt2_out_of p with
       | None =>
           get_option (options f) "outfile" = "" /\ ofstream_ptr s = None
       | Some to_cout =>
           get_option (options f) "outfile" = "-" /\ ofstream_ptr s = None
       | Some (to_ofstream name) =>
           name = get_option (options f) "outfile"
           /\ name <> "" /\ name <> "-" /\ good name = true
           /\ ofstream_ptr s = Some name
       end.
Proof.
  intros Hs Hb.
  destruct (bundle_shape good bound f s Hs) as (p & Hp & _ & _ & Hsmt2).
  exists p. unfold prop_conv. rewrite Hp. split; [reflexivity|].
  apply Hsmt2. exact Hb.
Qed.

Lemma get_solver_smt2_bundle_witness :
  exists p,
    prop_conv
      (solvert_ofstream
         (smt2_convt "QF_AUFBV" smt2_dect.GENERIC (to_ofstream "out.smt2")
            false None) "out.smt2")
    = Ok p
    /\ smt2_logic_of p = Some ("QF_AUFBV", false)
    /\ match smt2_out_of p with
       | None => "out.smt2" = "" /\ Some "out.smt2" = None
       | Some to_cout => "out.smt2" = "-" /\ Some "out.smt2" = None
       | Some (to_ofstream name) =>
           name = "out.smt2"
           /\ name <> "" /\ name <> "-" /\ Inputs.good name = true
           /\ Some "out.smt2" = Some name
       end.
Proof.
  apply (get_solver_smt2_bundle Inputs.good Inputs.bound
           MoreInputs.smt2_to_file); reflexivity.
Defined.

(** X6. [get_default] written statement by statement, with the SAT back
    end read back through [prop()], is [get_default]: the precondition of
    [prop()] holds where [get_default] calls it. *)
Theorem get_default_stepwise_eq (f : solver_factoryt) :
  get_default_stepwise f = get_default f.
Proof.
  unfold get_default_stepwise, get_default.
  destruct (get_bool_option (options f) "beautify"
            || negb (get_bool_option (options f) "sat-preprocessor"));
    reflexivity.
Qed.

(** X7. With smt2 set, the solver picked is the generic one exactly when
    none of boolector, cprover-smt2, mathsat, cvc3, cvc4, yices, z3 is set:
    the generic option itself changes nothing. *)
Theorem get_smt2_solver_type_generic (f : solver_factoryt) :
  get_bool_option (options f) "smt2" = true ->
  (get_smt2_solver_type f = Ok smt2_dect.GENERIC
   <-> no_named_solver (options f) = true).
Proof.
  intros Hsmt2. unfold get_smt2_solver_type, no_named_solver.
  rewrite Hsmt2. simpl.
  destruct (get_bool_option (options f) "boolector"); simpl;
    [split; discriminate|].
  destruct (get_bool_option (options f) "cprover-smt2"); simpl;
    [split; discriminate|].
  destruct (get_bool_option (options f) "mathsat"); simpl;
    [split; discriminate|].
  destruct (get_bool_option (options f) "cvc3"); simpl;
    [split; discriminate|].
  destruct (get_bool_option (options f) "cvc4"); simpl;
    [split; discriminate|].
  destruct (get_bool_option (options f) "yices"); simpl;
    [split; discriminate|].
  destruct (get_bool_option (options f) "z3"); simpl;
    [split; discriminate|].
  destruct (get_bool_option (options f) "generic"); split; reflexivity.
Qed.

Lemma get_smt2_solver_type_generic_witness :
  get_smt2_solver_type MoreInputs.smt2_to_file = Ok smt2_dect.GENERIC
  <-> no_named_solver (options MoreInputs.smt2_to_file) = true.
Proof.
  apply (get_smt2_solver_type_generic MoreInputs.smt2_to_file).
  reflexivity.
Defined.

(** X8. Only the CNF dumper looks at all-properties, cover and
    incremental-check: without dimacs, two option tables that differ in
    nothing else give the same result. *)
Theorem incremental_options_only_for_dimacs (good : string -> bool)
    (bound : Z) (f f' : solver_factoryt) :
  same_but_incremental (options f) (options f') ->
  output_xml_in_refinement f = output_xml_in_refinement f' ->
  get_bool_option (options f) "dimacs" = false ->
  get_solver good bound f = get_solver good bound f'.
Proof.
  intros Hsame Hxml Hd.
  assert (Hkey : forall k,
            k <> "all-properties" -> k <> "cover" ->
            k <> "incremental-check" -> ~ incremental_key k).
  { intros k H1 H2 H3 [H|[H|H]]; contradiction. }
  assert (Hb : forall k,
            k <> "all-properties" -> k <> "cover" ->
            k <> "incremental-check" ->
            get_bool_option (options f') k = get_bool_option (options f) k).
  { intros k H1 H2 H3. symmetry. apply Hsame, Hkey; assumption. }
  assert (Ho : forall k,
            k <> "all-properties" -> k <> "cover" ->
            k <> "incremental-check" ->
            get_option (options f') k = get_option (options f) k).
  { intros k H1 H2 H3. symmetry. apply Hsame, Hkey; assumption. }
  assert (Hsi : forall k,
            k <> "all-properties" -> k <> "cover" ->
            k <> "incremental-check" ->
            get_signed_int_option (options f') k
            = get_signed_int_option (options f) k).
  { intros k H1 H2 H3. symmetry. apply Hsame, Hkey; assumption. }
  assert (Hu : forall k,
            k <> "all-properties" -> k <> "cover" ->
            k <> "incremental-check" ->
            get_unsigned_int_option (options f') k
            = get_unsigned_int_option (options f) k).
  { intros k H1 H2 H3. symmetry. apply Hsame, Hkey; assumption. }
  unfold get_solver.
  rewrite (Hb "dimacs") by discriminate. rewrite Hd.
  unfold get_bv_refinement, get_string_refinement, get_smt2_solver_type,
    get_smt2, get_default, no_beautification, refinement_info,
    set_prop_conv_time_limit.
  rewrite <- Hxml.
  rewrite !Ho by discriminate.
  rewrite !Hsi by discriminate.
  rewrite !Hu by discriminate.
  rewrite !Hb by discriminate.
  reflexivity.
Qed.

Lemma incremental_options_only_for_dimacs_witness :
  get_solver Inputs.good Inputs.bound MoreInputs.refine_plain
  = get_solver Inputs.good Inputs.bound MoreInputs.refine_incremental.
Proof.
  apply (incremental_options_only_for_dimacs Inputs.good Inputs.bound
           MoreInputs.refine_plain MoreInputs.refine_incremental).
  - intros k Hk.
    assert (H1 : k <> "all-properties") by (intros ->; apply Hk; left;
                                             reflexivity).
    assert (H2 : k <> "cover") by (intros ->; apply Hk; right; left;
                                    reflexivity).
    unfold MoreInputs.refine_plain, MoreInputs.refine_incremental,
      factory_of, options_of. simpl.
    rewrite !lookup_insert.
    repeat case_decide; subst; try contradiction; repeat split.
  - reflexivity.
  - reflexivity.
Defined.

End SolverFactoryExtra.

(** ** The symbolic execution core *)

Module SymexExtra.
Import Symex SymexMore.

Section Quantifiers.
Context {E : externals} {C : collaborators}.

Lemma rewrite_operands_unexposed (l : list exprt) :
  Forall (fun e => exposed_forall e = false ->
                   forall w, rewrite_quantifiers e w = Ok (e, w)) l ->
  existsb exposed_forall l = false ->
  forall w, rewrite_operands rewrite_quantifiers l w = Ok (l, w).
Proof.
  induction 1 as [|e l He Hl IH]; intros Hex w; simpl; [reflexivity|].
  simpl in Hex. apply orb_false_iff in Hex as [H1 H2].
  rewrite (He H1 w). simpl. rewrite (IH H2 w). reflexivity.
Qed.

Lemma rewrite_operands_result (P : exprt -> exprt -> Prop) (l : list exprt) :
  Forall (fun e => forall w e' w',
            rewrite_quantifiers e w = Ok (e', w') -> P e e') l ->
  forall w l' w',
    rewrite_operands rewrite_quantifiers l w = Ok (l', w') ->
    Forall2 P l l'.
Proof.
  induction 1 as [|e l He Hl IH]; intros w l' w'; simpl.
  - intros [= <- _]. constructor.
  - destruct (rewrite_quantifiers e w) as [[e1 w1]| |] eqn:H1;
      simpl; try discriminate.
    destruct (rewrite_operands rewrite_quantifiers l w1)
      as [[l2 w2]| |] eqn:H2; simpl; try discriminate.
    intros [= <- _]. constructor; [eapply He; exact H1|].
    eapply IH; exact H2.
Qed.

Lemma existsb_Forall2 (f g : exprt -> bool) (l l' : list exprt) :
  Forall2 (fun e e' => g e' = f e) l l' -> existsb g l' = existsb f l.
Proof. induction 1; simpl; congruence. Qed.

End Quantifiers.

(** X9. An expression with no universal quantifier at the top or below
    conjunctions and disjunctions comes back from [rewrite_quantifiers] as
    it is, with the simulator and the state untouched: no declaration is
    made, also when a quantifier sits below a negation or another
    operator. *)
Theorem rewrite_quantifiers_unexposed {E : externals} {C : collaborators}
    (e : exprt) (w : worldt) :
  exposed_forall e = false ->
  rewrite_quantifiers e w = Ok (e, w).
Proof.
  revert w. induction e using SymexFacts.exprt_induction; intros w Hex;
    try reflexivity.
  - simpl. rewrite (rewrite_operands_unexposed l); [reflexivity| |exact Hex].
    eapply Forall_impl; [eassumption|]. simpl. intros e He Hx w'.
    apply He. exact Hx.
  - simpl. rewrite (rewrite_operands_unexposed l); [reflexivity| |exact Hex].
    eapply Forall_impl; [eassumption|]. simpl. intros e He Hx w'.
    apply He. exact Hx.
  - discriminate Hex.
Qed.

Lemma rewrite_quantifiers_unexposed_witness :
  rewrite_quantifiers (C := SymexInputs.col) MoreSymexInputs.negated
    (SymexInputs.single 3)
  = Ok (MoreSymexInputs.negated, SymexInputs.single 3).
Proof.
  apply (rewrite_quantifiers_unexposed (C := SymexInputs.col)
           MoreSymexInputs.negated (SymexInputs.single 3)).
  reflexivity.
Defined.

(** X10. What [rewrite_quantifiers] returns has no universal quantifier
    left at the top or below conjunctions and disjunctions, and has an
    existential quantifier somewhere exactly when the expression it was
    given had one: existential quantifiers are never rewritten. *)
Theorem rewrite_quantifiers_result {E : externals} {C : collaborators}
    (e : exprt) (w : worldt) (e' : exprt) (w' : worldt) :
  rewrite_quantifiers e w = Ok (e', w') ->
  exposed_forall e' = false
  /\ has_subexpr e' ID_exists = has_subexpr e ID_exists.
Proof.
  revert w e' w'. induction e using SymexFacts.exprt_induction;
    intros w e' w'; try (simpl; intros [= <- _]; split; reflexivity).
  - simpl.
    destruct (rewrite_operands rewrite_quantifiers l w)
      as [[l1 w1]| |] eqn:H1; simpl; try discriminate.
    intros [= <- _].
    pose proof (rewrite_operands_result
                  (fun e e' => exposed_forall e' = false
                               /\ has_subexpr e' ID_exists
                                  = has_subexpr e ID_exists)
                  l H w l1 w1 H1) as Hall.
    split; simpl.
    + clear H1. induction Hall as [|a b l l1 [Ha _] _ IH]; simpl;
        [reflexivity|]. rewrite Ha. apply IH.
      inversion H; assumption.
    + apply (existsb_Forall2 (fun o => has_subexpr o ID_exists)).
      eapply Forall2_impl; [exact Hall|]. intros a b [_ Hb]. exact Hb.
  - simpl.
    destruct (rewrite_operands rewrite_quantifiers l w)
      as [[l1 w1]| |] eqn:H1; simpl; try discriminate.
    intros [= <- _].
    pose proof (rewrite_operands_result
                  (fun e e' => exposed_forall e' = false
                               /\ has_subexpr e' ID_exists
                                  = has_subexpr e ID_exists)
                  l H w l1 w1 H1) as Hall.
    split; simpl.
    + clear H1. induction Hall as [|a b l l1 [Ha _] _ IH]; simpl;
        [reflexivity|]. rewrite Ha. apply IH.
      inversion H; assumption.
    + apply (existsb_Forall2 (fun o => has_subexpr o ID_exists)).
      eapply Forall2_impl; [exact Hall|]. intros a b [_ Hb]. exact Hb.
  - simpl.
    destruct (symex_decl_symbol w (get_original_expr x))
      as [w1| |] eqn:H1; simpl; try discriminate.
    intros H2. apply (IHe _ _ _ H2).
Qed.

Lemma rewrite_quantifiers_result_witness :
  exposed_forall
    (and_exprt [exists_exprt "y" (symbol_exprt "p"); symbol_exprt "q"])
  = false
  /\ has_subexpr
       (and_exprt [exists_exprt "y" (symbol_exprt "p"); symbol_exprt "q"])
       ID_exists
     = has_subexpr MoreSymexInputs.quantified ID_exists.
Proof.
  eapply (rewrite_quantifiers_result (C := SymexInputs.col)
            MoreSymexInputs.quantified (SymexInputs.single 3)).
  reflexivity.
Defined.

Section TransitionMore.
Context {E : externals}.

Lemma reset_count_same_frame (id : loop_idt) (fr : framet.t) :
  same_frame_but_counters fr (reset_count id fr).
Proof. repeat split. Qed.

Lemma edges_loop_same_frame (test : targett -> bool)
    (name : targett -> loop_idt) (edges : list targett) (fr : framet.t) :
  same_frame_but_counters fr
    (foldl (fun fr i_e => if test i_e then reset_count (name i_e) fr else fr)
       fr edges).
Proof.
  revert fr. induction edges as [|e edges IH]; intros fr; simpl.
  - repeat split.
  - destruct (IH (if test e then reset_count (name e) fr else fr))
      as (H1 & H2 & H3 & H4).
    unfold same_frame_but_counters. rewrite H1, H2, H3, H4.
    destruct (test e); repeat split.
Qed.

(** A counter after the loop over the incoming edges is what it was, or it
    has been put to zero for an edge that passed the test. *)
Lemma edges_loop_counters (test : targett -> bool)
    (name : targett -> loop_idt) (edges : list targett) (fr : framet.t)
    (id : loop_idt) :
  let fr' :=
    foldl (fun fr i_e => if test i_e then reset_count (name i_e) fr else fr)
      fr edges in
  framet.loop_iterations fr' !! id = framet.loop_iterations fr !! id
  \/ (framet.loop_iterations fr' !! id
      = Some (loop_infot.mk 0
                (loop_infot.is_recursion
                   (default loop_infot.fresh
                      (framet.loop_iterations fr !! id))))
      /\ exists i_e, i_e ∈ edges /\ test i_e = true /\ name i_e = id).
Proof.
  revert fr. induction edges as [|e edges IH]; intros fr; simpl.
  - left. reflexivity.
  - destruct (test e) eqn:Ht.
    + destruct (IH (reset_count (name e) fr)) as [Hsame|(Hzero & i_e & Hi)].
      * destruct (decide (name e = id)) as [Heq|Hne].
        -- right. split.
           ++ rewrite Hsame. unfold reset_count. simpl. rewrite Heq.
              apply lookup_insert_eq.
           ++ exists e. split; [apply list_elem_of_here|]. split; assumption.
        -- left. rewrite Hsame. unfold reset_count. simpl.
           apply lookup_insert_ne. exact Hne.
      * right. split.
        -- rewrite Hzero. unfold reset_count. simpl.
           destruct (decide (name e = id)) as [Heq|Hne].
           ++ rewrite Heq, lookup_insert_eq. reflexivity.
           ++ rewrite lookup_insert_ne by exact Hne. reflexivity.
        -- destruct Hi as (Hin & Hi). exists i_e.
           split; [apply list_elem_of_further; exact Hin | exact Hi].
    + destruct (IH fr) as [Hsame|(Hzero & i_e & Hin & Hi)].
      * left. exact Hsame.
      * right. split; [exact Hzero|]. exists i_e.
        split; [apply list_elem_of_further; exact Hin | exact Hi].
Qed.

Lemma switch_to_thread_vccs (s s' : statet) (t : Z) :
  switch_to_thread s t = Ok s' ->
  total_vccs s' = total_vccs s /\ remaining_vccs s' = remaining_vccs s.
Proof.
  unfold switch_to_thread.
  destruct (negb _); [discriminate|].
  destruct (negb _); [discriminate|].
  destruct (_ !! _); [|discriminate].
  intros [= <-]. split; reflexivity.
Qed.

Lemma symex_transition_vccs (s : statet) (to : targett) (b : bool) :
  total_vccs (symex_transition s to b) = total_vccs s
  /\ remaining_vccs (symex_transition s to b) = remaining_vccs s.
Proof. unfold symex_transition. destruct (call_stack s); split; reflexivity. Qed.

End TransitionMore.

(** X11. A transition of the program counter changes nothing of the state
    but the pc and the top frame of the active thread: depth, guard,
    atomic-section id, VCC counters, function and thread number stay, the
    thread vector keeps its length, every other thread record stays as it
    is, and the record of the active thread keeps its pc, guard and
    atomic-section id. With an empty call stack only the pc is written. *)
Theorem symex_transition_frame_rule {E : externals} (s : statet)
    (to : targett) (is_backwards_goto : bool) :
  sourcet.pc (source (symex_transition s to is_backwards_goto)) = to
  /\ sourcet.function_id (source (symex_transition s to is_backwards_goto))
     = sourcet.function_id (source s)
  /\ sourcet.thread_nr (source (symex_transition s to is_backwards_goto))
     = sourcet.thread_nr (source s)
  /\ depth (symex_transition s to is_backwards_goto) = depth s
  /\ guard (symex_transition s to is_backwards_goto) = guard s
  /\ atomic_section_id (symex_transition s to is_backwards_goto)
     = atomic_section_id s
  /\ total_vccs (symex_transition s to is_backwards_goto) = total_vccs s
  /\ remaining_vccs (symex_transition s to is_backwards_goto)
     = remaining_vccs s
  /\ length (threads (symex_transition s to is_backwards_goto))
     = length (threads s)
  /\ (forall i, i <> Z.to_nat (sourcet.thread_nr (source s)) ->
        threads (symex_transition s to is_backwards_goto) !! i
        = threads s !! i)
  /\ (forall i,
        t_pc <$> (threads (symex_transition s to is_backwards_goto) !! i)
        = t_pc <$> (threads s !! i)
        /\ t_guard
             <$> (threads (symex_transition s to is_backwards_goto) !! i)
           = t_guard <$> (threads s !! i)
        /\ t_atomic_section_id
             <$> (threads (symex_transition s to is_backwards_goto) !! i)
           = t_atomic_section_id <$> (threads s !! i))
  /\ (call_stack s = [] ->
      symex_transition s to is_backwards_goto = set_pc to s).
Proof.
  destruct (SymexFacts.symex_transition_threads s to is_backwards_goto)
    as (g & Hthreads).
  unfold symex_transition in *.
  destruct (call_stack s) as [|frame rest] eqn:Hstack.
  - repeat split; intros; reflexivity.
  - simpl in Hthreads |- *. repeat split; try reflexivity.
    + apply length_alter.
    + intros i Hi. apply list_lookup_alter_ne. congruence.
    + apply SymexFacts.lookup_alter_call_stack. reflexivity.
    + apply SymexFacts.lookup_alter_call_stack. reflexivity.
    + apply SymexFacts.lookup_alter_call_stack. reflexivity.
    + discriminate.
Qed.

(** X12. In a transition the top frame of the active thread keeps
    everything but its loop counters, the frames below it stay, and each
    loop counter is either left as it is or put to zero (its recursion flag
    kept, the entry created if it was not there) for an incoming edge of the
    target that is a backwards goto passing the test of the transition: no
    counter is incremented or removed. *)
Theorem symex_transition_counters {E : externals} (s : statet)
    (to : targett) (is_backwards_goto : bool) (fr : framet.t)
    (rest : list framet.t) :
  call_stack s = fr :: rest ->
  exists fr',
    call_stack (symex_transition s to is_backwards_goto) = fr' :: rest
    /\ same_frame_but_counters fr fr'
    /\ forall id,
         framet.loop_iterations fr' !! id = framet.loop_iterations fr !! id
         \/ (framet.loop_iterations fr' !! id
             = Some (loop_infot.mk 0
                       (loop_infot.is_recursion
                          (default loop_infot.fresh
                             (framet.loop_iterations fr !! id))))
             /\ exists i_e,
                  i_e ∈ instructiont.incoming_edges (instruction_at to)
                  /\ enters_loop s is_backwards_goto i_e = true
                  /\ loop_id (sourcet.function_id (source s))
                       (instruction_at i_e) = id).
Proof.
  intros Hstack. unfold symex_transition. rewrite Hstack.
  eexists. split; [|split].
  - change (call_stack (set_pc to ?x)) with (call_stack x).
    eapply SymexFacts.call_stack_set_top. exact Hstack.
  - apply (edges_loop_same_frame (enters_loop s is_backwards_goto)
             (fun i_e => loop_id (sourcet.function_id (source s))
                           (instruction_at i_e))).
  - intros id.
    apply (edges_loop_counters (enters_loop s is_backwards_goto)
             (fun i_e => loop_id (sourcet.function_id (source s))
                           (instruction_at i_e))).
Qed.

Lemma symex_transition_counters_witness :
  exists fr',
    call_stack
      (symex_transition (E := SymexInputs.ext) SymexInputs.on_back_edge 0
         true)
    = fr' :: []
    /\ same_frame_but_counters SymexInputs.frame3 fr'
    /\ forall id,
         framet.loop_iterations fr' !! id
         = framet.loop_iterations SymexInputs.frame3 !! id
         \/ (framet.loop_iterations fr' !! id
             = Some (loop_infot.mk 0
                       (loop_infot.is_recursion
                          (default loop_infot.fresh
                             (framet.loop_iterations SymexInputs.frame3
                                !! id))))
             /\ exists i_e,
                  i_e ∈ instructiont.incoming_edges (SymexInputs.program 0)
                  /\ enters_loop (E := SymexInputs.ext)
                       SymexInputs.on_back_edge true i_e = true
                  /\ loop_id "main" (SymexInputs.program i_e) = id).
Proof.
  apply (symex_transition_counters (E := SymexInputs.ext)
           SymexInputs.on_back_edge 0 true SymexInputs.frame3 []).
  reflexivity.
Defined.

(** X13. [switch_to_thread] returns exactly when both the active thread
    and the thread switched to exist; otherwise it stops on its
    precondition and no state comes back. *)
Theorem switch_to_thread_in_range {E : externals} (s : statet)
    (thread_nb : Z) :
  0 <= sourcet.thread_nr (source s) ->
  0 <= thread_nb ->
  ((exists s', switch_to_thread s thread_nb = Ok s')
   <-> sourcet.thread_nr (source s) < Z.of_nat (length (threads s))
       /\ thread_nb < Z.of_nat (length (threads s)))
  /\ ((exists s', switch_to_thread s thread_nb = Ok s')
      \/ (exists c, switch_to_thread s thread_nb = Abort c)).
Proof.
  intros Hnr Hnb.
  destruct (Z.ltb_spec (sourcet.thread_nr (source s))
              (Z.of_nat (length (threads s)))) as [H1|H1].
  - destruct (Z.ltb_spec thread_nb (Z.of_nat (length (threads s))))
      as [H2|H2].
    + destruct (SymexFacts.switch_to_thread_Ok s thread_nb)
        as (t & _ & Hok); [lia|lia|].
      split; [|left; eauto]. split; [intros _; lia | intros _; eauto].
    + assert (Habort : switch_to_thread s thread_nb
                       = Abort "thread_nb < state.threads.size()").
      { unfold switch_to_thread.
        destruct (Z.ltb_spec (sourcet.thread_nr (source s))
                    (Z.of_nat (length (threads s)))); [|lia].
        destruct (Z.ltb_spec thread_nb (Z.of_nat (length (threads s))));
          [lia|]. reflexivity. }
      split; [|right; eauto]. rewrite Habort.
      split; [intros [s' Hs']; discriminate Hs' | intros [_ H]; lia].
  - assert (Habort : switch_to_thread s thread_nb
                     = Abort "state.source.thread_nr < state.threads.size()").
    { unfold switch_to_thread.
      destruct (Z.ltb_spec (sourcet.thread_nr (source s))
                  (Z.of_nat (length (threads s)))); [lia|]. reflexivity. }
    split; [|right; eauto]. rewrite Habort.
    split; [intros [s' Hs']; discriminate Hs' | intros [H _]; lia].
Qed.

Lemma switch_to_thread_in_range_witness :
  ((exists s',
      switch_to_thread (E := SymexInputs.ext)
        (state (SymexInputs.last_instruction false)) 2 = Ok s')
   <-> 0 < 2 /\ 2 < 2)
  /\ ((exists s',
         switch_to_thread (E := SymexInputs.ext)
           (state (SymexInputs.last_instruction false)) 2 = Ok s')
      \/ (exists c,
            switch_to_thread (E := SymexInputs.ext)
              (state (SymexInputs.last_instruction false)) 2 = Abort c)).
Proof.
  apply (switch_to_thread_in_range (E := SymexInputs.ext)
           (state (SymexInputs.last_instruction false)) 2);
    simpl; lia.
Defined.

(** X14. Switching to another thread and back restores the program counter
    and the thread number, and leaves the atomic-section id of the state as
    it was all along; the guard that comes back is the snapshot in the
    record of the thread, not the guard the state had. Call stacks and
    guard snapshots of all thread records are untouched. *)
Theorem switch_to_thread_round_trip {E : externals} (s : statet)
    (thread_nb : Z) (told : threadt) :
  0 <= sourcet.thread_nr (source s) < Z.of_nat (length (threads s)) ->
  0 <= thread_nb < Z.of_nat (length (threads s)) ->
  threads s !! Z.to_nat (sourcet.thread_nr (source s)) = Some told ->
  exists s1 s2,
    switch_to_thread s thread_nb = Ok s1
    /\ switch_to_thread s1 (sourcet.thread_nr (source s)) = Ok s2
    /\ source s2 = source s
    /\ atomic_section_id s2 = atomic_section_id s
    /\ guard s2 = t_guard told
    /\ (forall i,
          t_call_stack <$> (threads s2 !! i)
          = t_call_stack <$> (threads s !! i)
          /\ t_guard <$> (threads s2 !! i) = t_guard <$> (threads s !! i)).
Proof.
  intros Hnr Hnb Hold.
  set (old := sourcet.thread_nr (source s)) in *.
  destruct (SymexFacts.switch_to_thread_Ok s thread_nb)
    as (t & Ht & Hs1); [fold old; lia | lia |].
  fold old in Ht, Hs1.
  match type of Hs1 with _ = Ok ?x => set (s1 := x) in * end.
  destruct (SymexFacts.switch_to_thread_Ok s1 old) as (t2 & Ht2 & Hs2).
  { unfold s1. simpl. rewrite length_alter. lia. }
  { unfold s1. simpl. rewrite length_alter. lia. }
  exists s1. eexists. split; [exact Hs1|]. split; [exact Hs2|].
  assert (Hrec : t_pc t2 = sourcet.pc (source s) /\ t_guard t2 = t_guard told).
  { revert Ht2. unfold s1. simpl.
    destruct (decide (Z.to_nat thread_nb = Z.to_nat old)) as [Heq|Hne].
    - rewrite Heq, !list_lookup_alter_eq.
      rewrite Heq, list_lookup_alter_eq in Ht. rewrite Hold in Ht |- *.
      simpl in Ht |- *. injection Ht as <-. simpl.
      intros [= <-]. split; reflexivity.
    - rewrite list_lookup_alter_ne by exact Hne.
      rewrite list_lookup_alter_eq, Hold. simpl.
      intros [= <-]. split; reflexivity. }
  destruct Hrec as [Hpc Hguard].
  simpl. rewrite Hpc, Hguard.
  split; [destruct (source s); reflexivity|].
  split; [reflexivity|]. split; [reflexivity|].
  intros i. unfold s1. simpl.
  assert (Hfield : forall {A} (proj : threadt -> A) (pc : targett) (a : Z)
                     (n : nat) (l : list threadt),
             (forall x, proj (set_t_atomic_section_id a (set_t_pc pc x))
                        = proj x) ->
             proj <$> (alter (fun x => set_t_atomic_section_id a
                                         (set_t_pc pc x)) n l !! i)
             = proj <$> (l !! i)).
  { intros A proj pc a n l Hproj.
    destruct (decide (n = i)) as [->|Hne].
    - rewrite list_lookup_alter_eq. destruct (l !! i); simpl;
        [f_equal; apply Hproj | reflexivity].
    - rewrite list_lookup_alter_ne by exact Hne. reflexivity. }
  split; rewrite !Hfield by reflexivity; reflexivity.
Qed.

Lemma switch_to_thread_round_trip_witness :
  exists s1 s2 : @statet SymexInputs.ext,
    switch_to_thread (state (SymexInputs.last_instruction false)) 1 = Ok s1
    /\ switch_to_thread s1 0 = Ok s2
    /\ source s2 = source (state (SymexInputs.last_instruction false))
    /\ atomic_section_id s2 = 7
    /\ guard s2 = []
    /\ (forall i : nat,
          @t_call_stack SymexInputs.ext <$> (threads s2 !! i)
          = @t_call_stack SymexInputs.ext
              <$> (threads (state (SymexInputs.last_instruction false)) !! i)
          /\ @t_guard SymexInputs.ext <$> (threads s2 !! i)
             = @t_guard SymexInputs.ext
                 <$> (threads (state (SymexInputs.last_instruction false))
                        !! i)).
Proof.
  apply (switch_to_thread_round_trip (E := SymexInputs.ext)
           (state (SymexInputs.last_instruction false)) 1
           (SymexInputs.thread_at 0 [] [SymexInputs.frame3]));
    [simpl; lia | simpl; lia | reflexivity].
Defined.

Section StepMore.
Context {E : externals} {C : collaborators}.

(** After a threaded step the simulator holds the counters of the state. *)
Lemma symex_threaded_step_cache (w w' : worldt) :
  symex_threaded_step w = Ok w' ->
  _total_vccs (this w') = total_vccs (state w')
  /\ _remaining_vccs (this w') = remaining_vccs (state w').
Proof.
  unfold symex_threaded_step.
  destruct (symex_step w) as [w1| |]; simpl; try discriminate.
  destruct (should_pause_symex (this w1)).
  { intros [= <-]. split; reflexivity. }
  destruct (bool_decide (call_stack (state w1) = []) && _).
  - destruct (switch_to_thread (state w1) _) as [s2| |] eqn:Hs;
      simpl; try discriminate.
    intros [= <-]. unfold with_this, set_vccs_cache.
    cbn [this state _total_vccs _remaining_vccs].
    destruct (switch_to_thread_vccs _ _ _ Hs) as [Ht2 Hr2].
    destruct (symex_transition_vccs s2 (sourcet.pc (source s2)) false)
      as [Ht1 Hr1].
    rewrite Ht1, Hr1, Ht2, Hr2. split; reflexivity.
  - intros [= <-]. split; reflexivity.
Qed.

End StepMore.

(** X15. Whenever [symex_threaded_step] returns, paused or not, switched or
    not, the total and remaining VCC counts cached in the simulator are the
    counters of the state it returns. *)
Theorem symex_threaded_step_caches_vccs {E : externals} {C : collaborators}
    (w w' : worldt) :
  symex_threaded_step w = Ok w' ->
  _total_vccs (this w') = total_vccs (state w')
  /\ _remaining_vccs (this w') = remaining_vccs (state w').
Proof.
  unfold symex_threaded_step.
  destruct (symex_step w) as [w1| |]; simpl; try discriminate.
  destruct (should_pause_symex (this w1)).
  { (* paused: the counters were cached before the test *)
    intros [= <-]. split; reflexivity. }
  destruct (bool_decide (call_stack (state w1) = []) && _).
  - (* switched: neither the switch nor the transition touches them *)
    destruct (switch_to_thread (state w1) _) as [s2| |] eqn:Hs;
      simpl; try discriminate.
    intros [= <-]. unfold with_this, set_vccs_cache.
    cbn [this state _total_vccs _remaining_vccs].
    destruct (switch_to_thread_vccs _ _ _ Hs) as [Ht2 Hr2].
    destruct (symex_transition_vccs s2 (sourcet.pc (source s2)) false)
      as [Ht1 Hr1].
    rewrite Ht1, Hr1, Ht2, Hr2. split; reflexivity.
  - intros [= <-]. split; reflexivity.
Qed.

Lemma symex_threaded_step_caches_vccs_witness :
  exists w' : @worldt SymexInputs.ext,
    symex_threaded_step (C := SymexInputs.col) (SymexInputs.single 3) = Ok w'
    /\ _total_vccs (this w') = 1
    /\ _remaining_vccs (this w') = 1
    /\ total_vccs (state w') = 1.
Proof.
  destruct (symex_threaded_step (C := SymexInputs.col) (SymexInputs.single 3))
    as [w'| |] eqn:Hstep; [|discriminate Hstep|discriminate Hstep].
  exists w'.
  destruct (symex_threaded_step_caches_vccs (C := SymexInputs.col)
              (SymexInputs.single 3) w' Hstep) as [Ht Hr].
  injection Hstep as <-. repeat split.
Defined.

(** X16. [get_total_vccs] and [get_remaining_vccs] abort on a simulator that
    has not made a step. After a threaded step they return the counters of
    the state, unless a counter happens to be the largest [unsigned], which
    they take for the initial value and abort on. *)
Theorem get_vccs_after_step {E : externals} {C : collaborators}
    (w w' : worldt) (cfg : symex_configt) (equation : list SSA_stept) :
  (exists c, get_total_vccs (new_goto_symext cfg equation) = Abort c)
  /\ (exists c, get_remaining_vccs (new_goto_symext cfg equation) = Abort c)
  /\ (symex_threaded_step w = Ok w' ->
      (total_vccs (state w') <> UINT_MAX ->
       get_total_vccs (this w') = Ok (total_vccs (state w')))
      /\ (remaining_vccs (state w') <> UINT_MAX ->
          get_remaining_vccs (this w') = Ok (remaining_vccs (state w')))
      /\ (total_vccs (state w') = UINT_MAX ->
          exists c, get_total_vccs (this w') = Abort c)
      /\ (remaining_vccs (state w') = UINT_MAX ->
          exists c, get_remaining_vccs (this w') = Abort c)).
Proof.
  split; [eexists; reflexivity|]. split; [eexists; reflexivity|].
  intros Hstep. destruct (symex_threaded_step_cache w w' Hstep) as [Ht Hr].
  unfold get_total_vccs, get_remaining_vccs. rewrite Ht, Hr.
  repeat split; intros H; case_decide; try contradiction; eauto.
Qed.

Lemma get_vccs_after_step_witness :
  exists w' : @worldt SymexInputs.ext,
    symex_threaded_step (C := SymexInputs.col) (SymexInputs.single 3) = Ok w'
    /\ get_total_vccs (this w') = Ok 1.
Proof.
  destruct (symex_threaded_step (C := SymexInputs.col) (SymexInputs.single 3))
    as [w'| |] eqn:Hstep; [|discriminate Hstep|discriminate Hstep].
  exists w'. split; [reflexivity|].
  destruct (get_vccs_after_step (C := SymexInputs.col)
              (SymexInputs.single 3) w' (mk_config 0 false) [])
    as (_ & _ & Hafter).
  destruct (Hafter Hstep) as (Htotal & _).
  injection Hstep as <-. apply Htotal. discriminate.
Defined.

(** X17. [symex_step] returns a state only when it was started on an
    existing thread with a frame on its call stack and on an instruction
    with a type; with no frame on the call stack of the active thread it
    stops on its precondition, before goto merging and before any
    handler. *)
Theorem symex_step_returns_only {E : externals} {C : collaborators}
    (w : worldt) :
  (call_stack (state w) = [] -> exists c, symex_step w = Abort c)
  /\ (forall w',
        symex_step w = Ok w' ->
        (Z.to_nat (sourcet.thread_nr (source (state w)))
         < length (threads (state w)))%nat
        /\ call_stack (state w) <> []
        /\ instructiont.type
             (instruction_at (sourcet.pc (source (state w))))
           <> NO_INSTRUCTION_TYPE).
Proof.
  split.
  - intros Hstack. unfold symex_step. rewrite Hstack.
    destruct (threads (state w)); eauto.
  - intros w'. unfold symex_step.
    destruct (threads (state w)) as [|t ts] eqn:Hthreads; [discriminate|].
    destruct (call_stack (state w)) as [|fr rest] eqn:Hstack;
      [discriminate|].
    intros Hstep. split; [|split; [discriminate|]].
    + unfold call_stack in Hstack. rewrite Hthreads in Hstack.
      destruct ((t :: ts) !! _) eqn:Hl; [|discriminate].
      apply lookup_lt_Some in Hl. exact Hl.
    + intros Hnone.
      destruct (symex_step_prologue w) as [w1| |]; simpl in Hstep;
        try discriminate.
      unfold dispatch in Hstep. rewrite Hnone in Hstep. discriminate.
Qed.

Lemma symex_step_returns_only_witness :
  (Z.to_nat 0 < 1)%nat
  /\ call_stack (E := SymexInputs.ext) (state (SymexInputs.single 3)) <> []
  /\ instructiont.type (SymexInputs.program 3) <> NO_INSTRUCTION_TYPE.
Proof.
  destruct (symex_step (C := SymexInputs.col) (SymexInputs.single 3))
    as [w'| |] eqn:Hstep; [|discriminate Hstep|discriminate Hstep].
  destruct (symex_step_returns_only (C := SymexInputs.col)
              (SymexInputs.single 3)) as [_ Hret].
  apply (Hret w' Hstep).
Defined.

(** X18. The depth bound cuts the path: with a non-zero [max_depth] and a
    depth beyond it, false is added to the guard before the instruction is
    dispatched, so that (an added false collapsing the guard) a skip,
    location, assume, assert, return, assign, function call, other, decl or
    end_thread emits nothing; the step leaves the equation as goto merging
    left it, counts the depth up by one and moves to the next
    instruction. *)
Theorem symex_step_beyond_depth {E : externals} {C : collaborators}
    (w wm : worldt) :
  add_false_collapses ->
  threads (state w) <> [] ->
  call_stack (state w) <> [] ->
  (if negb (doing_path_exploration (symex_config (this w)))
   then merge_gotos w else Ok w) = Ok wm ->
  max_depth (symex_config (this wm)) <> 0 ->
  depth (state wm) > max_depth (symex_config (this wm)) ->
  tests_guard
    (instructiont.type (instruction_at (sourcet.pc (source (state w)))))
  = true ->
  exists w',
    symex_step w = Ok w'
    /\ target (this w') = target (this wm)
    /\ guard (state w') = guard_add (guard (state wm)) false_exprt
    /\ guard_is_false (guard (state w')) = true
    /\ depth (state w') = wrap32 (depth (state wm) + 1)
    /\ sourcet.pc (source (state w')) = sourcet.pc (source (state wm)) + 1.
Proof.
  intros Hlaw Ht Hc Hmerge Hmax Hdepth Hkind.
  set (w1 := with_state (fun s => set_depth (wrap32 (depth s + 1)) s)
               (with_state
                  (fun s => set_guard (guard_add (guard s) false_exprt) s)
                  wm)).
  assert (Hp : symex_step_prologue w = Ok w1).
  { unfold symex_step_prologue. rewrite Hmerge. simpl.
    destruct (Z.eqb_spec (max_depth (symex_config (this wm))) 0);
      [contradiction|].
    destruct (Z.gtb_spec (depth (state wm))
                (max_depth (symex_config (this wm)))); [|lia].
    reflexivity. }
  rewrite (SymexFacts.symex_step_unfold w w1 Ht Hc Hp).
  rewrite SymexFacts.dispatch_tests_guard;
    [|apply Hlaw|exact Hkind].
  eexists. split; [reflexivity|].
  change (state (with_state symex_transition_next w1))
    with (symex_transition_next (state w1)).
  change (this (with_state symex_transition_next w1)) with (this w1).
  assert (Hframe :
            guard (symex_transition_next (state w1)) = guard (state w1)
            /\ depth (symex_transition_next (state w1)) = depth (state w1)
            /\ sourcet.pc (source (symex_transition_next (state w1)))
               = sourcet.pc (source (state w1)) + 1).
  { unfold symex_transition_next, symex_transition.
    destruct (call_stack (state w1)); repeat split. }
  destruct Hframe as (Hg & Hd & Hpc). rewrite Hg, Hd, Hpc.
  unfold w1. cbn [with_state this state set_depth set_guard guard depth
                  source].
  split; [reflexivity|]. split; [reflexivity|].
  split; [apply Hlaw|]. split; reflexivity.
Qed.

(** The guard of the reference instance collapses on an added false. *)
Lemma reference_add_false_collapses :
  add_false_collapses (E := SymexInputs.ext).
Proof.
  intros g. simpl. unfold Reference.add.
  destruct (existsb is_false g) eqn:Hg; [exact Hg|reflexivity].
Qed.

Lemma symex_step_beyond_depth_witness :
  exists w' : @worldt SymexInputs.ext,
    symex_step (C := SymexInputs.col) MoreSymexInputs.deep = Ok w'
    /\ target (this w') = []
    /\ guard (state w') = [false_exprt]
    /\ guard_is_false (guard (state w')) = true
    /\ depth (state w') = wrap32 (2 + 1)
    /\ sourcet.pc (source (state w')) = 3 + 1.
Proof.
  apply (symex_step_beyond_depth (C := SymexInputs.col)
           MoreSymexInputs.deep MoreSymexInputs.deep
           reference_add_false_collapses).
  - discriminate.
  - discriminate.
  - reflexivity.
  - discriminate.
  - simpl. lia.
  - reflexivity.
Defined.

(** X19. The end of a thread silences what follows: after the dispatcher
    has handled an end_thread, the guard is false (an added false
    collapsing it) with nothing emitted, and a skip, location, assume,
    assert, return, assign, function call, other, decl or end_thread
    dispatched on the resulting state only makes the transition. *)
Theorem dispatch_after_end_thread {E : externals} {C : collaborators}
    (i j : instructiont.t) (w : worldt) :
  add_false_collapses ->
  instructiont.type i = END_THREAD ->
  tests_guard (instructiont.type j) = true ->
  exists w1,
    dispatch i w = Ok w1
    /\ guard_is_false (guard (state w1)) = true
    /\ target (this w1) = target (this w)
    /\ dispatch j w1 = transition w1.
Proof.
  intros Hlaw Hi Hj.
  assert (Hg : forall v,
            guard (state (with_state symex_transition_next v))
            = guard (state v)).
  { intros v. simpl. unfold symex_transition_next.
    apply SymexFacts.symex_transition_frame. }
  unfold dispatch at 1. rewrite Hi.
  destruct (guard_is_false (guard (state w))) eqn:Hfalse; simpl.
  - eexists. split; [reflexivity|]. rewrite Hg.
    split; [exact Hfalse|]. split; [reflexivity|].
    apply SymexFacts.dispatch_tests_guard; [|exact Hj].
    rewrite Hg. exact Hfalse.
  - eexists. split; [reflexivity|]. rewrite Hg.
    split; [apply Hlaw|]. split; [reflexivity|].
    apply SymexFacts.dispatch_tests_guard; [|exact Hj].
    rewrite Hg. apply Hlaw.
Qed.

Lemma dispatch_after_end_thread_witness :
  exists w1 : @worldt SymexInputs.ext,
    dispatch (C := SymexInputs.col) MoreSymexInputs.end_thread_instruction
      (SymexInputs.single 3) = Ok w1
    /\ guard_is_false (guard (state w1)) = true
    /\ target (this w1) = []
    /\ dispatch (C := SymexInputs.col) (SymexInputs.program 3) w1
       = transition w1.
Proof.
  apply (dispatch_after_end_thread (C := SymexInputs.col)
           MoreSymexInputs.end_thread_instruction (SymexInputs.program 3)
           (SymexInputs.single 3) reference_add_false_collapses);
    reflexivity.
Defined.

Section AppendOnly.
Context {E : externals} {C : collaborators}.

Lemma extends_refl (w : worldt) : extends w w.
Proof. exists []. symmetry. apply app_nil_r. Qed.

Lemma extends_trans (u v w : worldt) :
  extends u v -> extends v w -> extends u w.
Proof.
  intros [l Hl] [m Hm]. exists (l ++ m)%list.
  rewrite Hm, Hl. symmetry. apply app_assoc.
Qed.

Lemma extends_emit (step : SSA_stept) (w : worldt) : extends w (emit step w).
Proof. exists [step]. reflexivity. Qed.

Hypothesis decl_appends :
  forall v x v', symex_decl_symbol v x = Ok v' -> extends v v'.

Lemma rewrite_operands_extends (l : list exprt) :
  Forall (fun e => forall w e' w',
            rewrite_quantifiers e w = Ok (e', w') -> extends w w') l ->
  forall w l' w',
    rewrite_operands rewrite_quantifiers l w = Ok (l', w') ->
    extends w w'.
Proof.
  induction 1 as [|e l He Hl IH]; intros w l' w'; simpl.
  - intros [= _ <-]. apply extends_refl.
  - destruct (rewrite_quantifiers e w) as [[e1 w1]| |] eqn:H1;
      simpl; try discriminate.
    destruct (rewrite_operands rewrite_quantifiers l w1)
      as [[l2 w2]| |] eqn:H2; simpl; try discriminate.
    intros [= _ <-].
    eapply extends_trans; [eapply He; exact H1 | eapply IH; exact H2].
Qed.

Lemma rewrite_quantifiers_extends (e : exprt) :
  forall w e' w',
    rewrite_quantifiers e w = Ok (e', w') -> extends w w'.
Proof.
  induction e using SymexFacts.exprt_induction; intros w e' w';
    try (simpl; intros [= _ <-]; apply extends_refl).
  - simpl.
    destruct (rewrite_operands rewrite_quantifiers l w)
      as [[l1 w1]| |] eqn:H1; simpl; try discriminate.
    intros [= _ <-]. eapply rewrite_operands_extends; eassumption.
  - simpl.
    destruct (rewrite_operands rewrite_quantifiers l w)
      as [[l1 w1]| |] eqn:H1; simpl; try discriminate.
    intros [= _ <-]. eapply rewrite_operands_extends; eassumption.
  - simpl.
    destruct (symex_decl_symbol w (get_original_expr x))
      as [w1| |] eqn:H1; simpl; try discriminate.
    intros H2. eapply extends_trans; [eapply decl_appends; exact H1|].
    eapply IHe; exact H2.
Qed.

End AppendOnly.

(** X20. [vcc] only appends to the equation: when a declaration only
    appends, the equation [vcc] leaves starts with the whole equation it
    found, and what it adds after the declarations of rewritten quantifiers
    is at most one step, an assertion. *)
Theorem vcc_appends_only {E : externals} {C : collaborators}
    (vcc_expr : exprt) (msg : string) (w w' : worldt) :
  (forall v x v', symex_decl_symbol v x = Ok v' -> extends v v') ->
  vcc vcc_expr msg w = Ok w' ->
  extends w w'
  /\ exists e1 w1,
       vcc_quantifiers vcc_expr (vcc_count w) = Ok (e1, w1)
       /\ extends w w1
       /\ (target (this w') = target (this w1)
           \/ exists g c,
                target (this w')
                = (target (this w1)
                   ++ [assertion g c msg (source (state w1))])%list).
Proof.
  intros Hdecl. unfold vcc.
  destruct (vcc_quantifiers vcc_expr (vcc_count w)) as [[e1 w1]| |] eqn:Hq;
    simpl; try discriminate.
  assert (Hext : extends w w1).
  { unfold vcc_quantifiers in Hq.
    destruct (has_subexpr vcc_expr ID_exists
              || has_subexpr vcc_expr ID_forall).
    - apply (extends_trans w (vcc_count w) w1);
        [exists []; symmetry; apply app_nil_r|].
      eapply rewrite_quantifiers_extends; [exact Hdecl|exact Hq].
    - injection Hq as _ <-. exists []. symmetry. apply app_nil_r. }
  destruct (is_true (do_simplify (rename (state w1) e1))).
  - intros [= <-]. split; [exact Hext|].
    exists e1, w1. split; [reflexivity|]. split; [exact Hext|].
    left. reflexivity.
  - intros [= <-]. split.
    + eapply extends_trans; [exact Hext|]. eexists [_]. reflexivity.
    + exists e1, w1. split; [reflexivity|]. split; [exact Hext|].
      right. do 2 eexists. reflexivity.
Qed.

Lemma vcc_appends_only_witness :
  exists w' : @worldt SymexInputs.ext,
    vcc (C := SymexInputs.col) MoreSymexInputs.quantified "assertion"
      (SymexInputs.single 3) = Ok w'
    /\ extends (SymexInputs.single 3) w'.
Proof.
  destruct (vcc (C := SymexInputs.col) MoreSymexInputs.quantified "assertion"
              (SymexInputs.single 3)) as [w'| |] eqn:Hvcc;
    [|discriminate Hvcc|discriminate Hvcc].
  exists w'. split; [reflexivity|].
  apply (vcc_appends_only (C := SymexInputs.col)
           MoreSymexInputs.quantified "assertion" (SymexInputs.single 3) w').
  - intros v x v' [= <-]. eexists [_]. reflexivity.
  - exact Hvcc.
Defined.

(** X21. [symex_assume] only appends to the equation, and by itself at most
    one step, an assumption: when ending an atomic section only appends, the
    equation it leaves starts with the whole equation it found. It never
    touches the VCC counters, the depth or the threads unless the atomic
    end does. *)
Theorem symex_assume_appends_only {E : externals} {C : collaborators}
    (w w' : worldt) (cond : exprt) :
  appends_only symex_atomic_end ->
  symex_assume w cond = Ok w' ->
  extends w w'
  /\ exists w1,
       (w' = w1 \/ symex_atomic_end w1 = Ok w')
       /\ (target (this w1) = target (this w)
           \/ exists g c,
                target (this w1)
                = (target (this w)
                   ++ [assumption g c (source (state w))])%list)
       /\ total_vccs (state w1) = total_vccs (state w)
       /\ remaining_vccs (state w1) = remaining_vccs (state w)
       /\ depth (state w1) = depth (state w)
       /\ threads (state w1) = threads (state w)
       /\ atomic_section_id (state w1) = atomic_section_id (state w).
Proof.
  intros Hend. unfold symex_assume.
  destruct (is_true (do_simplify cond)).
  { intros [= <-]. split; [apply extends_refl|].
    exists w. split; [left; reflexivity|]. split; [left; reflexivity|].
    repeat split. }
  set (w1 := assume_record (do_simplify cond) w).
  assert (Hrec : extends w w1
                 /\ (target (this w1) = target (this w)
                     \/ exists g c,
                          target (this w1)
                          = (target (this w)
                             ++ [assumption g c (source (state w))])%list)
                 /\ total_vccs (state w1) = total_vccs (state w)
                 /\ remaining_vccs (state w1) = remaining_vccs (state w)
                 /\ depth (state w1) = depth (state w)
                 /\ threads (state w1) = threads (state w)
                 /\ atomic_section_id (state w1) = atomic_section_id (state w)).
  { unfold w1, assume_record.
    destruct (decide (length (threads (state w)) = 1%nat)).
    - split; [apply extends_emit|].
      split; [right; do 2 eexists; reflexivity|]. repeat split.
    - split; [exists []; simpl; symmetry; apply app_nil_r|].
      split; [left; reflexivity|]. repeat split. }
  destruct Hrec as (Hext & Hrest).
  destruct (negb (atomic_section_id (state w1) =? 0)
            && guard_is_false (guard (state w1))).
  - intros Hw'. split.
    + eapply extends_trans; [exact Hext|]. apply (Hend w1 w' Hw').
    + exists w1. split; [right; exact Hw'|]. exact Hrest.
  - intros [= <-]. split; [exact Hext|].
    exists w1. split; [left; reflexivity|]. exact Hrest.
Qed.

Lemma symex_assume_appends_only_witness :
  exists w' : @worldt SymexInputs.ext,
    symex_assume (C := SymexInputs.col) SymexInputs.two_threads_atomic
      false_exprt = Ok w'
    /\ extends SymexInputs.two_threads_atomic w'.
Proof.
  destruct (symex_assume (C := SymexInputs.col)
              SymexInputs.two_threads_atomic false_exprt)
    as [w'| |] eqn:Ha; [|discriminate Ha|discriminate Ha].
  exists w'. split; [reflexivity|].
  apply (symex_assume_appends_only (C := SymexInputs.col)
           SymexInputs.two_threads_atomic w' false_exprt).
  - intros v v' [= <-]. eexists [_]. reflexivity.
  - exact Ha.
Defined.

End SymexExtra.
